(** * GraphJin configuration core and service start-up: a shallow embedding

    The Go sources embedded here are the compiler core's configuration
    (package [core]: [Config], [Role], [RoleTable], the per-operation
    policies, [AddRoleTable], [RemoveRoleTable], [SetResolver],
    [readInConfig]) and the service initialisation (package [serv]:
    [validateConf], [initConfig]).

    Conventions
    - a Go [string] is a [string]; [int] is [Z]; a slice is a [list];
      a [map[string]T] is a [gmap string T] and a nil map reads as the
      empty map unless nil-ness is observable, in which case the field is
      an [option];
    - a pointer field such as [*Query] is an [option]; a pointer into a
      slice ([&c.Roles[i]]) is the index [i];
    - a Go [error] is an [option error]: [None] is [nil];
    - methods on a pointer receiver take the receiver and return its new
      value next to the result. *)

From Stdlib Require Import ZArith Ascii String.
From stdpp Require Import base tactics option list strings gmap fin_maps.

Local Open Scope string_scope.
Local Open Scope list_scope.

Set Warnings "-clear-no-such-hyp".

(** ** Package [strings] of the Go library, as far as the sources use it *)

Module strings.

(** [strings.Cut(s, sep)] for a one-byte separator: the text before and
    after the first occurrence of [sep]. *)
Fixpoint Cut (s : string) (sep : ascii) : option (string * string) :=
  match s with
  | EmptyString => None
  | String a rest =>
      if Ascii.eqb a sep then Some (EmptyString, rest)
      else match Cut rest sep with
           | Some (before, after) => Some (String a before, after)
           | None => None
           end
  end.

(** [strings.SplitN(s, sep, 2)] for a one-byte separator: a slice of one
    element when [sep] does not occur, of two otherwise. *)
Definition SplitN2 (s : string) (sep : ascii) : list string :=
  match Cut s sep with
  | Some (before, after) => [before; after]
  | None => [s]
  end.

(** [strings.HasPrefix]. *)
Definition HasPrefix (s p : string) : bool := String.prefix p s.

(** Lower-casing of one ASCII letter; every other byte is kept. *)
Definition lower (a : ascii) : ascii :=
  let n := nat_of_ascii a in
  if Nat.leb 65 n && Nat.leb n 90 then ascii_of_nat (n + 32) else a.

Fixpoint lower_string (s : string) : string :=
  match s with
  | EmptyString => EmptyString
  | String a rest => String (lower a) (lower_string rest)
  end.

(** The ASCII path of [strings.EqualFold]: byte-wise comparison in which
    an upper-case letter equals its lower-case form. It agrees with the
    library on ASCII text; bytes from 0x80 on are compared as they are. *)
Fixpoint EqualFoldASCII (s t : string) : bool :=
  match s, t with
  | EmptyString, EmptyString => true
  | String a s', String b t' =>
      Ascii.eqb (lower a) (lower b) && EqualFoldASCII s' t'
  | _, _ => false
  end.

End strings.

(** [strings.EqualFold] compares two texts rune by rune up to Unicode
    simple case folding. The verified functions only depend on it being an
    equivalence on texts, which is what they are proved against. *)
Class Folding := {
  EqualFold : string → string → bool;
  EqualFold_refl : ∀ s, EqualFold s s = true;
  EqualFold_sym : ∀ s t, EqualFold s t = true → EqualFold t s = true;
  EqualFold_trans :
    ∀ s t u, EqualFold s t = true → EqualFold t u = true → EqualFold s u = true;
}.

(** On ASCII text the comparison is equality of the lower-cased texts. *)
Lemma EqualFoldASCII_lower s t :
  strings.EqualFoldASCII s t = true ↔ strings.lower_string s = strings.lower_string t.
Proof.
  revert t. induction s as [|a s IH]; intros [|b t]; simpl; try done.
  rewrite andb_true_iff, Ascii.eqb_eq, IH. split.
  - by intros [-> ->].
  - by intros [= -> ->].
Qed.

(** The ASCII comparison is an equivalence, as [Folding] asks. *)
Definition ascii_folding : Folding.
Proof.
  refine {| EqualFold := strings.EqualFoldASCII |}.
  - intros s. by apply EqualFoldASCII_lower.
  - intros s t. rewrite !EqualFoldASCII_lower. congruence.
  - intros s t u. rewrite !EqualFoldASCII_lower. congruence.
Defined.

(** ** Slices *)

(** [for i := range l { if p(l[i]) { idx = i; break } }]: the first index
    whose element satisfies [p]. *)
Fixpoint index_where {A} (p : A → bool) (l : list A) : option nat :=
  match l with
  | [] => None
  | x :: rest => if p x then Some 0 else S <$> index_where p rest
  end.

(** [append(l[:i], l[i+1:]...)]: the slice without its element [i]. *)
Definition remove_at {A} (i : nat) (l : list A) : list A :=
  take i l ++ drop (S i) l.

(** [l'] is [l] with the one element satisfying [p] replaced by an element
    that [upd] relates to it; or, when no element of [l] satisfies [p], it
    is [l] followed by one element that [upd] relates to [fresh]. *)
Definition replaced_or_appended {A} (p : A → bool) (upd : A → A → Prop)
    (fresh : A) (l l' : list A) : Prop :=
  (∃ pre x x' post,
      l = pre ++ x :: post ∧ l' = pre ++ x' :: post ∧ p x = true ∧ upd x x'
      ∧ Forall (λ y, p y = false) pre ∧ Forall (λ y, p y = false) post)
  ∨ (∃ x', l' = l ++ [x'] ∧ upd fresh x' ∧ Forall (λ y, p y = false) l).

(** No two elements of [l] are related by [same]. *)
Fixpoint pairwise_distinct {A} (same : A → A → bool) (l : list A) : bool :=
  match l with
  | [] => true
  | x :: rest => forallb (λ y, negb (same x y)) rest && pairwise_distinct same rest
  end.

(** ** The configuration reader [github.com/spf13/viper], as far as
    [readInConfig] drives it *)

Module viper.

(** Decoded settings: lower-cased key paths to their values. *)
Abbreviation settings := (gmap string string).

(** The file system a reader works on ([afero.Fs]) together with viper's
    decoders: [load] reads and decodes the config file at a path, and fails
    on a missing, unreadable, unsupported or malformed file; [search] is the
    file viper finds for a config name in its search paths, the empty text
    when there is none. *)
Record Fs := {
  load : string → option settings;
  search : list string → string → string;
}.

Inductive error :=
  | ConfigFileNotFoundError (name : string)
  | ConfigReadError (file : string).

Record Viper := {
  configFile : string;
  configName : string;
  configPaths : list string;
  fs : Fs;
  config : settings;
  override : settings;
}.

Definition New (osFs : Fs) : Viper :=
  {| configFile := ""; configName := "config"; configPaths := []; fs := osFs;
     config := ∅; override := ∅ |}.

Definition SetFs (v : Viper) (f : Fs) : Viper :=
  {| configFile := configFile v; configName := configName v;
     configPaths := configPaths v; fs := f; config := config v;
     override := override v |}.

Definition SetConfigFile (v : Viper) (file : string) : Viper :=
  if bool_decide (file = "") then v
  else {| configFile := file; configName := configName v;
          configPaths := configPaths v; fs := fs v; config := config v;
          override := override v |}.

Definition SetConfigName (v : Viper) (name : string) : Viper :=
  if bool_decide (name = "") then v
  else {| configFile := ""; configName := name;
          configPaths := configPaths v; fs := fs v; config := config v;
          override := override v |}.

Definition AddConfigPath (v : Viper) (path : string) : Viper :=
  if bool_decide (path = "") || bool_decide (path ∈ configPaths v) then v
  else {| configFile := configFile v; configName := configName v;
          configPaths := configPaths v ++ [path]; fs := fs v; config := config v;
          override := override v |}.

Definition set_config (v : Viper) (file : string) (m : settings) : Viper :=
  {| configFile := file; configName := configName v;
     configPaths := configPaths v; fs := fs v; config := m;
     override := override v |}.

(** The config file in use: the one set, or else the one found by name,
    which is then remembered. *)
Definition getConfigFile (v : Viper) : option string :=
  if bool_decide (configFile v = "") then
    let found := search (fs v) (configPaths v) (configName v) in
    if bool_decide (found = "") then None else Some found
  else Some (configFile v).

(** [ReadInConfig] replaces the settings by those of the config file. *)
Definition ReadInConfig (v : Viper) : error + Viper :=
  match getConfigFile v with
  | None => inl (ConfigFileNotFoundError (configName v))
  | Some file =>
      match load (fs v) file with
      | None => inl (ConfigReadError file)
      | Some m => inr (set_config v file m)
      end
  end.

(** [MergeInConfig] merges the settings of the config file into the
    present ones; a key of the file overrides the present value. *)
Definition MergeInConfig (v : Viper) : error + Viper :=
  match getConfigFile v with
  | None => inl (ConfigFileNotFoundError (configName v))
  | Some file =>
      match load (fs v) file with
      | None => inl (ConfigReadError file)
      | Some m => inr (set_config v file (m ∪ config v))
      end
  end.

(** [GetString]: the value of a key, the empty text when it is not set. *)
Definition GetString (v : Viper) (key : string) : string :=
  default "" ((override v ∪ config v) !! key).

Definition ConfigFileUsed (v : Viper) : string := configFile v.

End viper.

(** ** Package [core]: the configuration of the compiler core *)

Module core.

(** Table configuration for querying a table with a role. *)
Record Query := {
  Query_Limit : Z;
  Query_Filters : list string;
  Query_Columns : list string;
  Query_DisableFunctions : bool;
  Query_Block : bool;
}.

(** Table configuration for inserting into a table with a role. *)
Record Insert := {
  Insert_Filters : list string;
  Insert_Columns : list string;
  Insert_Presets : gmap string string;
  Insert_Block : bool;
}.

(** Table configuration for updating a table with a role. *)
Record Update := {
  Update_Filters : list string;
  Update_Columns : list string;
  Update_Presets : gmap string string;
  Update_Block : bool;
}.

(** Table configuration for creating/updating (upsert) a table with a role. *)
Record Upsert := {
  Upsert_Filters : list string;
  Upsert_Columns : list string;
  Upsert_Presets : gmap string string;
  Upsert_Block : bool;
}.

(** Table configuration for deleting from a table with a role. *)
Record Delete := {
  Delete_Filters : list string;
  Delete_Columns : list string;
  Delete_Block : bool;
}.

(** Table configuration for a specific role. The five policies are
    pointers in the source. *)
Record RoleTable := {
  RoleTable_Name : string;
  RoleTable_Schema : string;
  RoleTable_ReadOnly : bool;
  RoleTable_Query : option Query;
  RoleTable_Insert : option Insert;
  RoleTable_Update : option Update;
  RoleTable_Upsert : option Upsert;
  RoleTable_Delete : option Delete;
}.

(** Configuration for a user role. The unexported lookup cache [tm] is
    neither read nor written by the functions below and is left out. *)
Record Role := {
  Role_Name : string;
  Role_Match : string;
  Role_Tables : list RoleTable;
}.

(** The dynamic type of the [conf interface{}] argument of [AddRoleTable]:
    one of the five policy values, or anything else (a pointer to a policy
    included). *)
Inductive conf_value :=
  | ConfQuery (v : Query)
  | ConfInsert (v : Insert)
  | ConfUpdate (v : Update)
  | ConfUpsert (v : Upsert)
  | ConfDelete (v : Delete)
  | ConfOther.

(** The errors the functions of this package build with [fmt.Errorf], and
    those handed on from the configuration reader. *)
Inductive error :=
  | ErrUnsupportedType
  | ErrRoleNotFound (role : string)
  | ErrTableNotFound (table : string)
  | ErrResolverDefined (name : string)
  | ErrInheritedInherits (pcf v : string)
  | ErrViper (e : viper.error)
  | ErrDecode.

Section Config.

(** [refunc], the type of resolver constructors, is declared in another
    file of the package; the registry only stores its values. *)
Variable refunc : Type.

(** Configuration for the GraphJin compiler core. Left out are the fields
    no function below reads or writes: [ScriptPath], [Resolvers],
    [Tables], [Inflections], [EnableInflection], [SingularSuffix],
    [SubsPollDuration], [DisableAgg], [DisableFuncs], [EnableCamelcase],
    [DBSchemaPollDuration] and the cache [tmap]. [rtmap] is [None] for a
    nil map. *)
Record Config := {
  SecretKey : string;
  DisableAllowList : bool;
  ConfigPath : string;
  SetUserID : bool;
  DefaultBlock : bool;
  Vars : gmap string string;
  HeaderVars : gmap string string;
  Blocklist : list string;
  RolesQuery : string;
  Roles : list Role;
  DBType : string;
  Debug : bool;
  DefaultLimit : Z;
  Production : bool;
  rtmap : option (gmap string refunc);
}.

Definition set_Roles (c : Config) (roles : list Role) : Config :=
  {| SecretKey := SecretKey c; DisableAllowList := DisableAllowList c;
     ConfigPath := ConfigPath c; SetUserID := SetUserID c;
     DefaultBlock := DefaultBlock c; Vars := Vars c;
     HeaderVars := HeaderVars c; Blocklist := Blocklist c;
     RolesQuery := RolesQuery c; Roles := roles; DBType := DBType c;
     Debug := Debug c; DefaultLimit := DefaultLimit c;
     Production := Production c; rtmap := rtmap c |}.

Definition set_rtmap (c : Config) (m : option (gmap string refunc)) : Config :=
  {| SecretKey := SecretKey c; DisableAllowList := DisableAllowList c;
     ConfigPath := ConfigPath c; SetUserID := SetUserID c;
     DefaultBlock := DefaultBlock c; Vars := Vars c;
     HeaderVars := HeaderVars c; Blocklist := Blocklist c;
     RolesQuery := RolesQuery c; Roles := Roles c; DBType := DBType c;
     Debug := Debug c; DefaultLimit := DefaultLimit c;
     Production := Production c; rtmap := m |}.

Definition set_DBType (c : Config) (t : string) : Config :=
  {| SecretKey := SecretKey c; DisableAllowList := DisableAllowList c;
     ConfigPath := ConfigPath c; SetUserID := SetUserID c;
     DefaultBlock := DefaultBlock c; Vars := Vars c;
     HeaderVars := HeaderVars c; Blocklist := Blocklist c;
     RolesQuery := RolesQuery c; Roles := Roles c; DBType := t;
     Debug := Debug c; DefaultLimit := DefaultLimit c;
     Production := Production c; rtmap := rtmap c |}.

Definition set_DefaultBlock (c : Config) (b : bool) : Config :=
  {| SecretKey := SecretKey c; DisableAllowList := DisableAllowList c;
     ConfigPath := ConfigPath c; SetUserID := SetUserID c;
     DefaultBlock := b; Vars := Vars c;
     HeaderVars := HeaderVars c; Blocklist := Blocklist c;
     RolesQuery := RolesQuery c; Roles := Roles c; DBType := DBType c;
     Debug := Debug c; DefaultLimit := DefaultLimit c;
     Production := Production c; rtmap := rtmap c |}.

Definition set_Production (c : Config) (b : bool) : Config :=
  {| SecretKey := SecretKey c; DisableAllowList := DisableAllowList c;
     ConfigPath := ConfigPath c; SetUserID := SetUserID c;
     DefaultBlock := DefaultBlock c; Vars := Vars c;
     HeaderVars := HeaderVars c; Blocklist := Blocklist c;
     RolesQuery := RolesQuery c; Roles := Roles c; DBType := DBType c;
     Debug := Debug c; DefaultLimit := DefaultLimit c;
     Production := b; rtmap := rtmap c |}.

Definition set_Tables (r : Role) (tables : list RoleTable) : Role :=
  {| Role_Name := Role_Name r; Role_Match := Role_Match r; Role_Tables := tables |}.

(** [t.Query = &v] and its four siblings; any other dynamic type leaves
    the table as it is. *)
Definition assign (conf : conf_value) (t : RoleTable) : RoleTable :=
  let mk q i u p d :=
    {| RoleTable_Name := RoleTable_Name t; RoleTable_Schema := RoleTable_Schema t;
       RoleTable_ReadOnly := RoleTable_ReadOnly t;
       RoleTable_Query := q; RoleTable_Insert := i; RoleTable_Update := u;
       RoleTable_Upsert := p; RoleTable_Delete := d |} in
  match conf with
  | ConfQuery v =>
      mk (Some v) (RoleTable_Insert t) (RoleTable_Update t) (RoleTable_Upsert t) (RoleTable_Delete t)
  | ConfInsert v =>
      mk (RoleTable_Query t) (Some v) (RoleTable_Update t) (RoleTable_Upsert t) (RoleTable_Delete t)
  | ConfUpdate v =>
      mk (RoleTable_Query t) (RoleTable_Insert t) (Some v) (RoleTable_Upsert t) (RoleTable_Delete t)
  | ConfUpsert v =>
      mk (RoleTable_Query t) (RoleTable_Insert t) (RoleTable_Update t) (Some v) (RoleTable_Delete t)
  | ConfDelete v =>
      mk (RoleTable_Query t) (RoleTable_Insert t) (RoleTable_Update t) (RoleTable_Upsert t) (Some v)
  | ConfOther => t
  end.

(** [Role{Name: role}] and [RoleTable{Name: table, Schema: schema}]. *)
Definition new_Role (role : string) : Role :=
  {| Role_Name := role; Role_Match := ""; Role_Tables := [] |}.

Definition new_RoleTable (table schema : string) : RoleTable :=
  {| RoleTable_Name := table; RoleTable_Schema := schema; RoleTable_ReadOnly := false;
     RoleTable_Query := None; RoleTable_Insert := None; RoleTable_Update := None;
     RoleTable_Upsert := None; RoleTable_Delete := None |}.

(** [if v := strings.SplitN(table, ".", 2); len(v) == 2 { schema = v[0];
    table = v[1] }]: the pair (schema, table) afterwards. *)
Definition split_table (table : string) : string * string :=
  match strings.SplitN2 table "." with
  | [schema; name] => (schema, name)
  | _ => ("", table)
  end.

(** [c.Roles[ri].Tables], empty when [ri] is out of range. *)
Definition tables_of (c : Config) (ri : nat) : list RoleTable :=
  from_option Role_Tables [] (Roles c !! ri).

(** A write through the pointer [&c.Roles[ri]]. *)
Definition update_role (c : Config) (ri : nat) (f : Role → Role) : Config :=
  set_Roles c (alter f ri (Roles c)).

Context `{!Folding}.

Definition role_named (role : string) (r : Role) : bool :=
  EqualFold (Role_Name r) role.

Definition table_named (table schema : string) (t : RoleTable) : bool :=
  EqualFold (RoleTable_Name t) table && EqualFold (RoleTable_Schema t) schema.

(** The first block of [AddRoleTable]: the pointer [r] to the role named
    [role], which is appended when no role has that name. *)
Definition role_ptr (c : Config) (role : string) : Config * nat :=
  match index_where (role_named role) (Roles c) with
  | Some i => (c, i)
  | None => (set_Roles c (Roles c ++ [new_Role role]), length (Roles c))
  end.

(** The second block: the pointer [t] to the table of role [ri] named
    [schema.table], which is appended when the role has no such table. *)
Definition table_ptr (c : Config) (ri : nat) (table schema : string) : Config * nat :=
  match index_where (table_named table schema) (tables_of c ri) with
  | Some i => (c, i)
  | None =>
      (update_role c ri (λ r, set_Tables r (Role_Tables r ++ [new_RoleTable table schema])),
       length (tables_of c ri))
  end.

(** [AddRoleTable]: a helper to add per-table row-level config. The role
    and the table are looked up first and appended when missing; the type
    switch comes last, so an unsupported [conf] is reported after the
    appends. *)
Definition AddRoleTable (c : Config) (role table : string) (conf : conf_value)
  : Config * option error :=
  let '(c, ri) := role_ptr c role in
  let '(schema, table) := split_table table in
  let '(c, ti) := table_ptr c ri table schema in
  match conf with
  | ConfOther => (c, Some ErrUnsupportedType)
  | _ => (update_role c ri (λ r, set_Tables r (alter (assign conf) ti (Role_Tables r))), None)
  end.

(** [RemoveRoleTable]. *)
Definition RemoveRoleTable (c : Config) (role table : string) : Config * option error :=
  match index_where (role_named role) (Roles c) with
  | None => (c, Some (ErrRoleNotFound role))
  | Some ri =>
      let tables := tables_of c ri in
      let '(schema, table) := split_table table in
      match index_where (table_named table schema) tables with
      | None => (c, Some (ErrTableNotFound table))
      | Some ti =>
          let c := update_role c ri (λ r, set_Tables r (remove_at ti tables)) in
          let c :=
            if decide (length (tables_of c ri) = 0)
            then set_Roles c (remove_at ri (Roles c)) else c in
          (c, None)
      end
  end.

(** The resolver registry as a map; a nil [rtmap] holds nothing. *)
Definition registry (c : Config) : gmap string refunc :=
  default ∅ (rtmap c).

(** [SetResolver]. *)
Definition SetResolver (c : Config) (name : string) (fn : refunc) : Config * option error :=
  let c := match rtmap c with None => set_rtmap c (Some ∅) | Some _ => c end in
  match registry c !! name with
  | Some _ => (c, Some (ErrResolverDefined name))
  | None => (set_rtmap c (Some (<[name := fn]> (registry c))), None)
  end.

(** The configuration invariant: role names are pairwise different up to
    case, and so are the (schema, name) pairs of each role's tables. *)
Definition same_role (r1 r2 : Role) : bool :=
  EqualFold (Role_Name r1) (Role_Name r2).

Definition same_table (t1 t2 : RoleTable) : bool :=
  EqualFold (RoleTable_Name t1) (RoleTable_Name t2)
  && EqualFold (RoleTable_Schema t1) (RoleTable_Schema t2).

Definition roles_unique (c : Config) : bool :=
  pairwise_distinct same_role (Roles c)
  && forallb (λ r, pairwise_distinct same_table (Role_Tables r)) (Roles c).

(** What [AddRoleTable] does to the role it works on: name and match
    expression stay, and the table [schema.name] gets the policy [conf],
    in place when the role has that table and as one appended table
    otherwise. *)
Definition role_updated (conf : conf_value) (name schema : string) (r r' : Role) : Prop :=
  Role_Name r' = Role_Name r ∧ Role_Match r' = Role_Match r
  ∧ replaced_or_appended (table_named name schema) (λ t t', t' = assign conf t)
      (new_RoleTable name schema) (Role_Tables r) (Role_Tables r').

End Config.

Global Arguments SecretKey {_} _.
Global Arguments DisableAllowList {_} _.
Global Arguments ConfigPath {_} _.
Global Arguments SetUserID {_} _.
Global Arguments DefaultBlock {_} _.
Global Arguments Vars {_} _.
Global Arguments HeaderVars {_} _.
Global Arguments Blocklist {_} _.
Global Arguments RolesQuery {_} _.
Global Arguments Roles {_} _.
Global Arguments DBType {_} _.
Global Arguments Debug {_} _.
Global Arguments DefaultLimit {_} _.
Global Arguments Production {_} _.
Global Arguments rtmap {_} _.
Global Arguments set_Roles {_} _ _.
Global Arguments set_rtmap {_} _ _.
Global Arguments set_DBType {_} _ _.
Global Arguments set_DefaultBlock {_} _ _.
Global Arguments set_Production {_} _ _.
Global Arguments tables_of {_} _ _.
Global Arguments update_role {_} _ _ _.
Global Arguments role_ptr {_ _} _ _.
Global Arguments table_ptr {_ _} _ _ _ _.
Global Arguments AddRoleTable {_ _} _ _ _ _.
Global Arguments RemoveRoleTable {_ _} _ _ _.
Global Arguments registry {_} _.
Global Arguments SetResolver {_} _ _ _.
Global Arguments roles_unique {_ _} _.
Global Arguments role_updated {_} _ _ _ _ _.

(** What a call that may fail or panic ends in. *)
Inductive result (A : Type) :=
  | Ok (a : A)
  | Error (e : error)
  | Panic.
Global Arguments Ok {A} a.
Global Arguments Error {A} e.
Global Arguments Panic {A}.

Section ReadInConfig.
Variable refunc : Type.

(** The surroundings of [readInConfig]: [path/filepath], the file system
    of the operating system, [os.Environ()], the helper
    [util.SetKeyValue] and viper's decoding of its settings into a
    [Config] belong to other packages and stay open. *)
Variables Dir Base Ext : string → string.
Variable Join : string → string → string.
Variable osFs : viper.Fs.
Variable Environ : list string.
Variable SetKeyValue : viper.Viper → string → string → viper.Viper.
Variable Unmarshal : viper.Viper → Config refunc → option (Config refunc).

(** [newViper]. *)
Definition newViper (configPath configFile : string) : viper.Viper :=
  let vi := viper.New osFs in
  if bool_decide (Ext configFile ≠ "") then
    viper.SetConfigFile vi (Join configPath configFile)
  else
    let vi := viper.SetConfigName vi configFile in
    let vi := viper.AddConfigPath vi configPath in
    viper.AddConfigPath vi "./config".

(** [if fs != nil { vi.SetFs(fs) }]. *)
Definition with_fs (fs : option viper.Fs) (vi : viper.Viper) : viper.Viper :=
  match fs with
  | Some f => viper.SetFs vi f
  | None => vi
  end.

(** The block of [readInConfig] run when the file names a parent under
    the key [inherits]: the parent [pcf] is read on its own, must not name
    a parent itself, and then the file [cf] read first is merged in. *)
Definition inherit (cp : string) (fs : option viper.Fs) (vi : viper.Viper)
    (pcf : string) : error + viper.Viper :=
  let cf := viper.ConfigFileUsed vi in
  let vi := with_fs fs (newViper cp pcf) in
  match viper.ReadInConfig vi with
  | inl err => inl (ErrViper err)
  | inr vi =>
      let v := viper.GetString vi "inherits" in
      if bool_decide (v ≠ "") then inl (ErrInheritedInherits pcf v)
      else
        let vi := viper.SetConfigFile vi cf in
        match viper.MergeInConfig vi with
        | inl err => inl (ErrViper err)
        | inr vi => inr vi
        end
  end.

(** The loop over [os.Environ()]; [None] when [kv[1]] is out of range. *)
Fixpoint environ_loop (env : list string) (vi : viper.Viper) : option viper.Viper :=
  match env with
  | [] => Some vi
  | e :: rest =>
      if strings.HasPrefix e "GJ_" || strings.HasPrefix e "SJ_" then
        match strings.SplitN2 e "=" with
        | [k; v] => environ_loop rest (SetKeyValue vi k v)
        | _ => None
        end
      else environ_loop rest vi
  end.

(** The end of [readInConfig]: the environment is applied and the
    settings are decoded into a fresh [Config]. *)
Definition decode (vi : viper.Viper) : result (Config refunc) :=
  match environ_loop Environ vi with
  | None => Panic
  | Some vi =>
      let c :=
        {| SecretKey := ""; DisableAllowList := false;
           ConfigPath := Dir (viper.ConfigFileUsed vi); SetUserID := false;
           DefaultBlock := false; Vars := ∅; HeaderVars := ∅; Blocklist := [];
           RolesQuery := ""; Roles := []; DBType := ""; Debug := false;
           DefaultLimit := 0; Production := false; rtmap := None |} in
      match Unmarshal vi c with
      | None => Error ErrDecode
      | Some c => Ok c
      end
  end.

(** [readInConfig]. *)
Definition readInConfig (configFile : string) (fs : option viper.Fs)
  : result (Config refunc) :=
  let cp := Dir configFile in
  let vi := with_fs fs (newViper cp (Base configFile)) in
  match viper.ReadInConfig vi with
  | inl err => Error (ErrViper err)
  | inr vi =>
      let pcf := viper.GetString vi "inherits" in
      if bool_decide (pcf ≠ "") then
        match inherit cp fs vi pcf with
        | inl err => Error err
        | inr vi => decode vi
        end
      else decode vi
  end.

End ReadInConfig.

Section GetConfigName.

(** [strings.ToLower] and [strings.TrimSpace] work on Unicode text and stay
    open; [GO_ENV] is the value [os.Getenv("GO_ENV")] returns. *)
Variables ToLower TrimSpace : string → string.


End GetConfigName.

(** Whether an entry of the environment is one [readInConfig] looks at. *)
Definition prefixed (e : string) : bool :=
  strings.HasPrefix e "GJ_" || strings.HasPrefix e "SJ_".

(** Whether two [conf] values are policies of the same operation. *)
Definition same_operation (a b : conf_value) : bool :=
  match a, b with
  | ConfQuery _, ConfQuery _ => true
  | ConfInsert _, ConfInsert _ => true
  | ConfUpdate _, ConfUpdate _ => true
  | ConfUpsert _, ConfUpsert _ => true
  | ConfDelete _, ConfDelete _ => true
  | _, _ => false
  end.

(** Every role has at least one table. *)
Definition no_empty_role {refunc} (c : Config refunc) : bool :=
  forallb (λ r, negb (bool_decide (Role_Tables r = []))) (Roles c).

End core.

(** ** [crypto/sha256] of the Go library *)

Module sha256.
Local Open Scope Z_scope.

(** Bytes and 32-bit words are integers; [wrap] is the wrap-around of
    32-bit arithmetic. *)
Definition wrap (x : Z) : Z := x mod 2 ^ 32.

Definition rotr (n x : Z) : Z :=
  wrap (Z.lor (Z.shiftr x n) (Z.shiftl x (32 - n))).

Definition Ch (x y z : Z) : Z :=
  Z.lxor (Z.land x y) (Z.land (wrap (Z.lnot x)) z).

Definition Maj (x y z : Z) : Z :=
  Z.lxor (Z.lxor (Z.land x y) (Z.land x z)) (Z.land y z).

Definition Sigma0 (x : Z) : Z := Z.lxor (Z.lxor (rotr 2 x) (rotr 13 x)) (rotr 22 x).
Definition Sigma1 (x : Z) : Z := Z.lxor (Z.lxor (rotr 6 x) (rotr 11 x)) (rotr 25 x).
Definition sigma0 (x : Z) : Z := Z.lxor (Z.lxor (rotr 7 x) (rotr 18 x)) (Z.shiftr x 3).
Definition sigma1 (x : Z) : Z := Z.lxor (Z.lxor (rotr 17 x) (rotr 19 x)) (Z.shiftr x 10).

(** The round constants are the fractional parts of the cube roots of the
    first 64 primes, the initial hash value those of the square roots of
    the first 8. *)
Definition primes : list Z :=
  [2; 3; 5; 7; 11; 13; 17; 19; 23; 29; 31; 37; 41; 43; 47; 53;
   59; 61; 67; 71; 73; 79; 83; 89; 97; 101; 103; 107; 109; 113; 127; 131;
   137; 139; 149; 151; 157; 163; 167; 173; 179; 181; 191; 193; 197; 199; 211; 223;
   227; 229; 233; 239; 241; 251; 257; 263; 269; 271; 277; 281; 283; 293; 307; 311].

Fixpoint cbrt_bits (bits : nat) (n r : Z) : Z :=
  match bits with
  | O => r
  | S b =>
      let r' := r + 2 ^ Z.of_nat b in
      cbrt_bits b n (if r' * r' * r' <=? n then r' else r)
  end.

Definition cbrt (n : Z) : Z := cbrt_bits 36 n 0.

Definition K : list Z :=
  Eval vm_compute in map (λ p, wrap (cbrt (p * 2 ^ 96))) primes.

Definition H0 : list Z :=
  Eval vm_compute in map (λ p, wrap (Z.sqrt (p * 2 ^ 64))) (take 8 primes).

(** Big-endian bytes of a number and back. *)
Definition be_bytes (n : nat) (x : Z) : list Z :=
  map (λ i, Z.shiftr x (8 * Z.of_nat i) mod 256) (rev (seq 0 n)).

Definition be_number (bs : list Z) : Z := fold_left (λ acc b, acc * 256 + b) bs 0.

(** Padding: a one bit, zeros up to 56 modulo 64 bytes, and the length in
    bits as 8 bytes. *)
Definition pad (msg : list Z) : list Z :=
  let len := Z.of_nat (length msg) in
  msg ++ [128] ++ replicate (Z.to_nat ((55 - len) mod 64)) 0 ++ be_bytes 8 (8 * len).

Fixpoint chunks {A} (fuel size : nat) (l : list A) : list (list A) :=
  match fuel with
  | O => []
  | S fuel =>
      match l with
      | [] => []
      | _ => take size l :: chunks fuel size (drop size l)
      end
  end.

(** The message schedule, built newest word first. *)
Definition extend (w : list Z) : list Z :=
  wrap (sigma1 (nth 1 w 0) + nth 6 w 0 + sigma0 (nth 14 w 0) + nth 15 w 0) :: w.

Definition schedule (block : list Z) : list Z :=
  rev (Nat.iter 48 extend (rev (map be_number (chunks 16 4 block)))).

Definition round (st : list Z) (kw : Z * Z) : list Z :=
  match st with
  | [a; b; c; d; e; f; g; h] =>
      let t1 := h + Sigma1 e + Ch e f g + kw.1 + kw.2 in
      let t2 := Sigma0 a + Maj a b c in
      [wrap (t1 + t2); a; b; c; wrap (d + t1); e; f; g]
  | _ => st
  end.

Definition compress (h : list Z) (block : list Z) : list Z :=
  zip_with (λ x y, wrap (x + y)) h (fold_left round (zip K (schedule block)) h).

Definition digest (msg : list Z) : list Z :=
  let p := pad msg in
  concat (map (be_bytes 4) (fold_left compress (chunks (length p) 64 p) H0)).

(** [[]byte(s)]. *)
Definition bytes_of_string (s : string) : list Z :=
  map (λ a, Z.of_nat (nat_of_ascii a)) (list_ascii_of_string s).

(** [sha256.Sum256([]byte(s))], a value of type [[32]byte]. *)
Definition Sum256 (s : string) : list Z := digest (bytes_of_string s).

End sha256.

(** ** Package [serv]: service start-up *)

Module serv.

(** The errors [initConfig] builds with [fmt.Errorf]. *)
Inductive error :=
  | ErrDuplicateAuth (name : string)
  | ErrAdminSecretKey
  | ErrDuplicateAction (name : string)
  | ErrInvalidAuthName (authName name : string).

(** The structs behind the selectors [initConfig] and [validateConf] use
    are declared in another file of the package; they are given here with the
    fields those two functions select. *)
Record Auth_t := { Auth_Name : string; Auth_Type : string }.
Record Action_t := { Action_Name : string; Action_AuthName : string }.
Record DB_t := { DB_Type : string }.
Record Serv_t := { Serv_Production : bool; Serv_ConfigPath : string }.

(** What the logger [s.log] has been told. *)
Inductive log_entry :=
  | Warn (msg : string).

Section Service.
Variable refunc : Type.

(** [defaultHP], the host and port used when none is configured, is a
    constant declared in another file of the package. *)
Variable defaultHP : string.

(** The service configuration [*Config]. *)
Record Config := {
  Core : core.Config refunc;
  Serv : Serv_t;
  DB : DB_t;
  Auth : Auth_t;
  Auths : list Auth_t;
  Actions : list Action_t;
  HotDeploy : bool;
  AdminSecretKey : string;
  HostPort : string;
  Host : string;
  Port : string;
  AuthFailBlock : bool;
  LogLevel : string;
  hostPort : string;
  dirty : bool;
}.

(** The service: [conf] is a pointer, so every write through [s.conf] or
    through the copy [c := s.conf] of the pointer is a write to the one
    configuration. [asec] is a [[32]byte]. *)
Record service := {
  conf : Config;
  log : list log_entry;
  asec : list Z;
}.

Definition set_Core (c : Config) (core' : core.Config refunc) : Config :=
  {| Core := core'; Serv := Serv c; DB := DB c; Auth := Auth c; Auths := Auths c;
     Actions := Actions c; HotDeploy := HotDeploy c; AdminSecretKey := AdminSecretKey c;
     HostPort := HostPort c; Host := Host c; Port := Port c;
     AuthFailBlock := AuthFailBlock c; LogLevel := LogLevel c;
     hostPort := hostPort c; dirty := dirty c |}.

Definition set_AuthFailBlock (c : Config) (b : bool) : Config :=
  {| Core := Core c; Serv := Serv c; DB := DB c; Auth := Auth c; Auths := Auths c;
     Actions := Actions c; HotDeploy := HotDeploy c; AdminSecretKey := AdminSecretKey c;
     HostPort := HostPort c; Host := Host c; Port := Port c;
     AuthFailBlock := b; LogLevel := LogLevel c;
     hostPort := hostPort c; dirty := dirty c |}.

Definition set_hostPort (c : Config) (hp : string) : Config :=
  {| Core := Core c; Serv := Serv c; DB := DB c; Auth := Auth c; Auths := Auths c;
     Actions := Actions c; HotDeploy := HotDeploy c; AdminSecretKey := AdminSecretKey c;
     HostPort := HostPort c; Host := Host c; Port := Port c;
     AuthFailBlock := AuthFailBlock c; LogLevel := LogLevel c;
     hostPort := hp; dirty := dirty c |}.

Definition set_dirty (c : Config) (b : bool) : Config :=
  {| Core := Core c; Serv := Serv c; DB := DB c; Auth := Auth c; Auths := Auths c;
     Actions := Actions c; HotDeploy := HotDeploy c; AdminSecretKey := AdminSecretKey c;
     HostPort := HostPort c; Host := Host c; Port := Port c;
     AuthFailBlock := AuthFailBlock c; LogLevel := LogLevel c;
     hostPort := hostPort c; dirty := b |}.

Definition set_conf (s : service) (c : Config) : service :=
  {| conf := c; log := log s; asec := asec s |}.

Definition set_asec (s : service) (h : list Z) : service :=
  {| conf := conf s; log := log s; asec := h |}.

Definition add_log (s : service) (e : log_entry) : service :=
  {| conf := conf s; log := log s ++ [e]; asec := asec s |}.

(** [validateConf]. *)
Definition validateConf (s : service) : service :=
  let anonFound :=
    existsb (λ r, bool_decide (core.Role_Name r = "anon")) (core.Roles (Core (conf s))) in
  if negb anonFound && core.DefaultBlock (Core (conf s)) then
    let s := add_log s (Warn "unauthenticated requests will be blocked. no role 'anon' defined") in
    set_conf s (set_AuthFailBlock (conf s) false)
  else s.

(** Statements of [initConfig] run on the service and either go on with a
    value or return an error; what was written before an error stays
    written. *)
Inductive outcome (A : Type) :=
  | Done (a : A)
  | Failed (e : error).
Global Arguments Done {A} a.
Global Arguments Failed {A} e.

Definition M (A : Type) : Type := service → outcome A * service.

Definition ret {A} (a : A) : M A := λ s, (Done a, s).

Definition bind {A B} (m : M A) (k : A → M B) : M B :=
  λ s, match m s with
       | (Done a, s') => k a s'
       | (Failed e, s') => (Failed e, s')
       end.

Definition fail {A} (e : error) : M A := λ s, (Failed e, s).

Definition get_conf : M Config := λ s, (Done (conf s), s).

Definition write_conf (f : Config → Config) : M unit :=
  λ s, (Done tt, set_conf s (f (conf s))).

Definition write_core (f : core.Config refunc → core.Config refunc) : M unit :=
  write_conf (λ c, set_Core c (f (Core c))).

Definition when (b : bool) (m : M unit) : M unit := if b then m else ret tt.

Global Instance M_ret : MRet M := @ret.
Global Instance M_bind : MBind M := λ A B k m, bind m k.

(** A step that reads the service only through its arguments. *)
Definition lift {A} (r : error + A) : M A :=
  λ s, (match r with inl e => Failed e | inr a => Done a end, s).

(** The loop over [c.Auths]: [am] collects the names seen. *)
Fixpoint check_auths (auths : list Auth_t) (am : gset string) : error + gset string :=
  match auths with
  | [] => inr am
  | a :: rest =>
      if decide (Auth_Name a ∈ am) then inl (ErrDuplicateAuth (Auth_Name a))
      else check_auths rest ({[Auth_Name a]} ∪ am)
  end.

(** The loop over [c.Actions]: [axm] collects the names seen. *)
Fixpoint check_actions (actions : list Action_t) (am axm : gset string) : error + unit :=
  match actions with
  | [] => inr tt
  | a :: rest =>
      if decide (Action_Name a ∈ axm) then inl (ErrDuplicateAction (Action_Name a))
      else if decide (Action_AuthName a ∈ am)
      then check_actions rest am ({[Action_Name a]} ∪ axm)
      else inl (ErrInvalidAuthName (Action_AuthName a) (Action_Name a))
  end.

(** [initConfig]. *)
Definition initConfig : M unit :=
  write_conf (λ c, set_dirty c true) ;;
  (* copy over db_type from database.type *)
  c ← get_conf ;
  when (bool_decide (core.DBType (Core c) = ""))
    (write_core (λ k, core.set_DBType k (DB_Type (DB c)))) ;;
  (* Auths: validate and sanitize *)
  am ← lift (check_auths (Auths c) ∅) ;
  (if HotDeploy c then
     if bool_decide (AdminSecretKey c ≠ "")
     then (λ s, (Done tt, set_asec s (sha256.Sum256 (AdminSecretKey (conf s)))))
     else fail ErrAdminSecretKey
   else ret tt) ;;
  (* Actions: validate and sanitize *)
  lift (check_actions (Actions c) am ∅) ;;
  when (bool_decide (Auth_Type (Auth c) = "") || bool_decide (Auth_Type (Auth c) = "none"))
    (write_core (λ k, core.set_DefaultBlock k false)) ;;
  c ← get_conf ;
  match strings.SplitN2 (HostPort c) ":" with
  | [h; p] =>
      let h := if bool_decide (Host c ≠ "") then Host c else h in
      let p := if bool_decide (Port c ≠ "") then Port c else p in
      write_conf (λ c, set_hostPort c (h +:+ ":" +:+ p))
  | _ => ret tt
  end ;;
  c ← get_conf ;
  when (bool_decide (hostPort c = "")) (write_conf (λ c, set_hostPort c defaultHP)) ;;
  write_core (λ k, core.set_Production k (Serv_Production (Serv c))).

End Service.

Global Arguments Core {_} _.
Global Arguments Serv {_} _.
Global Arguments DB {_} _.
Global Arguments Auth {_} _.
Global Arguments Auths {_} _.
Global Arguments Actions {_} _.
Global Arguments HotDeploy {_} _.
Global Arguments AdminSecretKey {_} _.
Global Arguments HostPort {_} _.
Global Arguments Host {_} _.
Global Arguments Port {_} _.
Global Arguments AuthFailBlock {_} _.
Global Arguments LogLevel {_} _.
Global Arguments hostPort {_} _.
Global Arguments dirty {_} _.
Global Arguments conf {_} _.
Global Arguments log {_} _.
Global Arguments asec {_} _.
Global Arguments set_Core {_} _ _.
Global Arguments set_AuthFailBlock {_} _ _.
Global Arguments set_hostPort {_} _ _.
Global Arguments set_dirty {_} _ _.
Global Arguments set_conf {_} _ _.
Global Arguments set_asec {_} _ _.
Global Arguments add_log {_} _ _.
Global Arguments validateConf {_} _.
Global Arguments initConfig {_} _ _.

(** The service a run of [initConfig] without error leaves behind, field
    by field. *)
Definition started {refunc} (defaultHP : string) (s : service refunc) : service refunc :=
  let c := conf s in
  let k := Core c in
  let dbtype :=
    if bool_decide (core.DBType k = "") then DB_Type (DB c) else core.DBType k in
  let block :=
    if bool_decide (Auth_Type (Auth c) = "") || bool_decide (Auth_Type (Auth c) = "none")
    then false else core.DefaultBlock k in
  let address :=
    match strings.Cut (HostPort c) ":" with
    | Some (h, p) =>
        (if bool_decide (Host c ≠ "") then Host c else h) +:+ ":" +:+
        (if bool_decide (Port c ≠ "") then Port c else p)
    | None => if bool_decide (hostPort c = "") then defaultHP else hostPort c
    end in
  {| conf :=
       set_dirty
         (set_hostPort
            (set_Core c
               (core.set_Production
                  (core.set_DefaultBlock (core.set_DBType k dbtype) block)
                  (Serv_Production (Serv c))))
            address)
         true;
     log := log s;
     asec := if HotDeploy c then sha256.Sum256 (AdminSecretKey c) else asec s |}.

End serv.

(** ** The request path of the compiler core *)

(** The query compiler, the SQL generator and the allow-list store are
    not part of the embedded files. What the specification says of them is
    written down here over the configuration types above. *)
Module compiler.

(** The error classes of the specification that a compile can end in. *)
Inductive error :=
  | AccessDeniedError
  | CompileError (reason : string)
  | GenerationError.

(** The mutations that take presets. *)
Inductive mutation :=
  | MInsert
  | MUpdate
  | MUpsert.

(** Modelled from the spec: the presets the Access Control Resolver
    returns for a (role, table) policy bundle and a mutation kind; the
    resolver is missing from the sources. A policy that is not configured
    has no presets. *)
Definition presets (rt : core.RoleTable) (m : mutation) : gmap string string :=
  match m with
  | MInsert => from_option core.Insert_Presets ∅ (core.RoleTable_Insert rt)
  | MUpdate => from_option core.Update_Presets ∅ (core.RoleTable_Update rt)
  | MUpsert => from_option core.Upsert_Presets ∅ (core.RoleTable_Upsert rt)
  end.

(** Modelled from the spec: step 5 of the Query Compiler, which is missing
    from the sources: for mutations, presets are merged into the
    column-to-value map of the client, with preset values unconditionally
    winning. *)
Definition write_payload (rt : core.RoleTable) (m : mutation)
    (input : gmap string string) : gmap string string :=
  presets rt m ∪ input.

Section Compile.
Variable refunc : Type.

(** Modelled from the spec: the effective row limit computed in step 8 of
    the Query Compiler, which is missing from the sources: the smallest of
    the client-requested limit, the limit of the role's Query policy and
    the global default limit. *)
Definition effective_limit (c : core.Config refunc) (q : core.Query) (requested : Z) : Z :=
  let l := if (requested <? core.Query_Limit q)%Z then requested else core.Query_Limit q in
  if (l <? core.DefaultLimit c)%Z then l else core.DefaultLimit c.

(** Modelled from the spec: the operating mode of the Allow-List Store,
    which is missing from the sources: locked in production unless the
    allow list is disabled. *)
Definition locked (c : core.Config refunc) : bool :=
  core.Production c && negb (core.DisableAllowList c).

(** The compiled select tree, the compiler and the generator proper, and
    the normalisation behind a fingerprint are left open. *)
Variable select : Type.
Variable qcompile : string → string → string → error + select.
Variable generate : select → option string.
Variable fingerprint : string → string → string → string.

Record Artifact := {
  artifact_fingerprint : string;
  artifact_select : select;
  artifact_sql : string;
}.

(** What a request made the engine do. *)
Inductive event :=
  | Compiled (text : string)
  | GenerationAttempted (fp : string).

(** The Allow-List Store with the record of the work done so far. *)
Record engine := {
  store : gmap string Artifact;
  trace : list event;
}.

Definition record (e : event) (st : engine) : engine :=
  {| store := store st; trace := trace st ++ [e] |}.

(** Modelled from the spec: the compile entry point over the Allow-List
    Store (sections 4.2 and 4.4), which is missing from the sources. A
    fingerprint in the store is served from it without compiling; one that
    is absent is refused with [AccessDeniedError] in locked mode, and is
    compiled, lowered to SQL and inserted otherwise. *)
Definition compile (c : core.Config refunc) (st : engine) (text op role : string)
  : (error + Artifact) * engine :=
  let fp := fingerprint text op role in
  match store st !! fp with
  | Some a => (inr a, st)
  | None =>
      if locked c then (inl AccessDeniedError, st)
      else
        let st := record (Compiled text) st in
        match qcompile text op role with
        | inl e => (inl e, st)
        | inr sel =>
            let st := record (GenerationAttempted fp) st in
            match generate sel with
            | None => (inl GenerationError, st)
            | Some sql =>
                let a := {| artifact_fingerprint := fp; artifact_select := sel;
                            artifact_sql := sql |} in
                (inr a, {| store := <[fp := a]> (store st); trace := trace st |})
            end
        end
  end.

End Compile.

Global Arguments effective_limit {_} _ _ _.
Global Arguments locked {_} _.
Global Arguments artifact_fingerprint {_} _.
Global Arguments artifact_select {_} _.
Global Arguments artifact_sql {_} _.
Global Arguments store {_} _.
Global Arguments trace {_} _.
Global Arguments record {_} _ _.
Global Arguments compile {_ _} _ _ _ _ _ _ _ _.

End compiler.

(** ** Sample configurations *)

(** A configuration with two roles, and a service built on it. *)
Module samples.

Local Existing Instance ascii_folding.

Definition by_owner : core.Query :=
  {| core.Query_Limit := 10; core.Query_Filters := ["{ user_id: { eq: $user_id } }"];
     core.Query_Columns := ["id"; "title"]; core.Query_DisableFunctions := false;
     core.Query_Block := false |}.

Definition own_posts : core.Insert :=
  {| core.Insert_Filters := []; core.Insert_Columns := ["title"; "user_id"];
     core.Insert_Presets := {[ "user_id" := "$user_id" ]}; core.Insert_Block := false |}.

Definition posts : core.RoleTable :=
  {| core.RoleTable_Name := "posts"; core.RoleTable_Schema := "";
     core.RoleTable_ReadOnly := false; core.RoleTable_Query := None;
     core.RoleTable_Insert := Some own_posts; core.RoleTable_Update := None;
     core.RoleTable_Upsert := None; core.RoleTable_Delete := None |}.

Definition comments : core.RoleTable := core.new_RoleTable "comments" "public".

Definition user : core.Role :=
  {| core.Role_Name := "user"; core.Role_Match := ""; core.Role_Tables := [posts; comments] |}.

Definition guest : core.Role :=
  {| core.Role_Name := "guest"; core.Role_Match := ""; core.Role_Tables := [comments] |}.

(** A core configuration in production; resolver constructors are told
    apart by a number. *)
Definition config : core.Config nat :=
  {| core.SecretKey := ""; core.DisableAllowList := false; core.ConfigPath := "./config";
     core.SetUserID := false; core.DefaultBlock := true; core.Vars := ∅;
     core.HeaderVars := ∅; core.Blocklist := []; core.RolesQuery := "";
     core.Roles := [user; guest]; core.DBType := ""; core.Debug := false;
     core.DefaultLimit := 20; core.Production := true; core.rtmap := None |}.

Definition jwt : serv.Auth_t := {| serv.Auth_Name := "jwt"; serv.Auth_Type := "jwt" |}.

Definition service_conf (auths : list serv.Auth_t) (key : string) : serv.Config nat :=
  {| serv.Core := config;
     serv.Serv := {| serv.Serv_Production := true; serv.Serv_ConfigPath := "" |};
     serv.DB := {| serv.DB_Type := "postgres" |};
     serv.Auth := {| serv.Auth_Name := ""; serv.Auth_Type := "none" |};
     serv.Auths := auths; serv.Actions := []; serv.HotDeploy := true;
     serv.AdminSecretKey := key; serv.HostPort := "0.0.0.0:8080"; serv.Host := "";
     serv.Port := "9090"; serv.AuthFailBlock := true; serv.LogLevel := "info";
     serv.hostPort := ""; serv.dirty := false |}.

(** A service before start-up: nothing logged, [asec] all zero. *)
Definition service (auths : list serv.Auth_t) (key : string) : serv.service nat :=
  {| serv.conf := service_conf auths key; serv.log := []; serv.asec := replicate 32 0%Z |}.

Definition defaultHP : string := "0.0.0.0:8080".

End samples.

(** A small file system and surroundings for [readInConfig]: paths are
    cut at their last slash and dot, [dev.yml] inherits [base.yml], and
    [deep.yml] inherits [dev.yml]. *)
Module sample_files.

Fixpoint rcut (sep : ascii) (s : string) : option (string * string) :=
  match s with
  | EmptyString => None
  | String a rest =>
      match rcut sep rest with
      | Some (before, after) => Some (String a before, after)
      | None => if Ascii.eqb a sep then Some (EmptyString, rest) else None
      end
  end.

Definition Dir (path : string) : string :=
  match rcut "/" path with Some (dir, _) => dir | None => "." end.

Definition Base (path : string) : string :=
  match rcut "/" path with Some (_, file) => file | None => path end.

Definition Ext (path : string) : string :=
  match rcut "." path with Some (_, ext) => "." +:+ ext | None => "" end.

Definition Join (dir file : string) : string := dir +:+ "/" +:+ file.

Definition fs : viper.Fs :=
  {| viper.load path :=
       if bool_decide (path = "config/dev.yml") then
         Some {[ "inherits" := "base.yml"; "default_limit" := "50" ]}
       else if bool_decide (path = "config/base.yml") then
         Some {[ "default_limit" := "20"; "db_type" := "postgres" ]}
       else if bool_decide (path = "config/deep.yml") then
         Some {[ "inherits" := "dev.yml" ]}
       else None;
     viper.search _ _ := "" |}.

Definition Environ : list string := ["HOME=/root"; "GO_ENV=dev"].

Definition SetKeyValue (vi : viper.Viper) (key value : string) : viper.Viper := vi.

Definition Unmarshal (vi : viper.Viper) (c : core.Config nat) : option (core.Config nat) :=
  Some (core.set_DBType c (viper.GetString vi "db_type")).

Definition readInConfig : string → option viper.Fs → core.result (core.Config nat) :=
  core.readInConfig nat Dir Base Ext Join fs Environ SetKeyValue Unmarshal.

(** The reader after [dev.yml], and after [base.yml], has been read. *)
Definition dev : viper.Viper :=
  viper.set_config (viper.SetConfigFile (viper.New fs) "config/dev.yml") "config/dev.yml"
    {[ "inherits" := "base.yml"; "default_limit" := "50" ]}.

Definition base : viper.Viper :=
  viper.set_config (viper.SetConfigFile (viper.New fs) "config/base.yml") "config/base.yml"
    {[ "default_limit" := "20"; "db_type" := "postgres" ]}.

End sample_files.

(** A compiler that accepts every query, for worked instances of the
    request path. *)
Module sample_engine.

Definition qcompile (text op role : string) : compiler.error + string := inr text.

Definition generate (sel : string) : option string := Some ("SELECT /* " +:+ sel +:+ " */").

Definition fingerprint (text op role : string) : string :=
  op +:+ " " +:+ role +:+ " " +:+ text.

Definition empty : compiler.engine string :=
  {| compiler.store := ∅; compiler.trace := [] |}.

Definition compile := compiler.compile (refunc := nat) qcompile generate fingerprint.

(** The sample configuration with the allow list disabled. *)
Definition unlocked : core.Config nat :=
  {| core.SecretKey := ""; core.DisableAllowList := true; core.ConfigPath := "./config";
     core.SetUserID := false; core.DefaultBlock := true; core.Vars := ∅;
     core.HeaderVars := ∅; core.Blocklist := []; core.RolesQuery := "";
     core.Roles := []; core.DBType := ""; core.Debug := false;
     core.DefaultLimit := 20; core.Production := true; core.rtmap := None |}.

End sample_engine.

(** * Properties *)

(** ** Slices *)

Section Slices.
Context {A : Type}.
Implicit Types (p : A → bool) (l pre post : list A) (x : A).

Lemma index_where_None p l :
  index_where p l = None ↔ Forall (λ x, p x = false) l.
Proof.
  induction l as [|x l IH]; simpl.
  - split; [constructor | done].
  - destruct (p x) eqn:Hx.
    + split; [done | intros Hl; inversion Hl; congruence].
    + rewrite fmap_None, IH. split; [by constructor | by inversion 1].
Qed.

Lemma index_where_Some p l i :
  index_where p l = Some i ↔
  ∃ pre x post, l = pre ++ x :: post ∧ length pre = i
                ∧ Forall (λ y, p y = false) pre ∧ p x = true.
Proof.
  revert i. induction l as [|x l IH]; intros i; simpl.
  - split; [done | intros (pre & y & post & Hl & _)]. by destruct pre.
  - destruct (p x) eqn:Hx.
    + split.
      * intros [= <-]. by exists [], x, l.
      * intros (pre & y & post & Hl & <- & Hpre & Hy).
        destruct pre as [|z pre]; [done |].
        simplify_eq/=. inversion Hpre; congruence.
    + rewrite fmap_Some. split.
      * intros (j & (pre & y & post & -> & <- & Hpre & Hy)%IH & ->).
        exists (x :: pre), y, post. split_and!; by try constructor.
      * intros (pre & y & post & Hl & <- & Hpre & Hy).
        destruct pre as [|z pre]; simplify_eq/=; [congruence |].
        exists (length pre). split; [| done]. apply IH.
        exists pre, y, post. by inversion Hpre.
Qed.

Lemma alter_at_middle (f : A → A) pre x post :
  alter f (length pre) (pre ++ x :: post) = pre ++ f x :: post.
Proof. induction pre as [|y pre IH]; simpl; [done | by f_equal]. Qed.

Lemma alter_at_end (f : A → A) l x :
  alter f (length l) (l ++ [x]) = l ++ [f x].
Proof. apply alter_at_middle. Qed.

Lemma remove_at_middle pre x post :
  remove_at (length pre) (pre ++ x :: post) = pre ++ post.
Proof.
  unfold remove_at. rewrite take_app_length. f_equal.
  induction pre as [|y pre IH]; simpl; [by rewrite drop_0 | done].
Qed.

End Slices.

Section Distinct.
Context {A : Type} (same : A → A → bool).
Implicit Types (l pre post : list A) (x : A).

Lemma pairwise_distinct_cons x l :
  pairwise_distinct same (x :: l) = true ↔
  Forall (λ y, same x y = false) l ∧ pairwise_distinct same l = true.
Proof.
  simpl. rewrite andb_true_iff, forallb_forall, Forall_forall.
  split; intros [Hx Hl]; (split; [| done]); intros y Hy.
  - apply negb_true_iff, Hx. by apply list_elem_of_In.
  - apply negb_true_iff, Hx. by apply list_elem_of_In.
Qed.

Lemma pairwise_distinct_app l1 l2 :
  pairwise_distinct same (l1 ++ l2) = true ↔
  pairwise_distinct same l1 = true ∧ pairwise_distinct same l2 = true
  ∧ Forall (λ a, Forall (λ b, same a b = false) l2) l1.
Proof.
  induction l1 as [|x l1 IH].
  - simpl. split; [intros ?; by split_and! | by intros (_ & ? & _)].
  - change ((x :: l1) ++ l2) with (x :: (l1 ++ l2)).
    rewrite !pairwise_distinct_cons, IH, Forall_app, Forall_cons. tauto.
Qed.

(** Appending an element that no element of [l] is related to keeps the
    elements pairwise distinct. *)
Lemma pairwise_distinct_snoc l x :
  pairwise_distinct same l = true →
  Forall (λ y, same y x = false) l →
  pairwise_distinct same (l ++ [x]) = true.
Proof.
  intros Hl Hx. apply pairwise_distinct_app. split_and!; [done | done |].
  eapply Forall_impl; [exact Hx |]. intros y Hy. by repeat constructor.
Qed.

(** Replacing an element by one related to the same elements keeps the
    elements pairwise distinct. *)
Lemma pairwise_distinct_replace pre x x' post :
  (∀ y, same x' y = same x y) → (∀ y, same y x' = same y x) →
  pairwise_distinct same (pre ++ x :: post) = true →
  pairwise_distinct same (pre ++ x' :: post) = true.
Proof.
  intros Hl Hr.
  rewrite !pairwise_distinct_app, !pairwise_distinct_cons.
  intros (Hpre & (Hx & Hpost) & Hcross). split_and!; [done | | done |].
  - eapply Forall_impl; [exact Hx |]. intros y Hy. by rewrite Hl.
  - eapply Forall_impl; [exact Hcross |]. intros y Hy.
    inversion Hy; subst. constructor; [by rewrite Hr | done].
Qed.

(** Among pairwise distinct elements at most one satisfies a predicate
    whose instances are all related. *)
Lemma pairwise_distinct_one_match (p : A → bool) pre x post :
  (∀ a b, p a = true → p b = true → same a b = true) →
  pairwise_distinct same (pre ++ x :: post) = true →
  p x = true →
  Forall (λ y, p y = false) pre ∧ Forall (λ y, p y = false) post.
Proof.
  intros Hp. rewrite pairwise_distinct_app, pairwise_distinct_cons.
  intros (_ & (Hx & _) & Hcross) Hpx. split.
  - eapply Forall_impl; [exact Hcross |]. intros y Hy.
    inversion Hy; subst. destruct (p y) eqn:Hpy; [| done].
    specialize (Hp y x Hpy Hpx). congruence.
  - eapply Forall_impl; [exact Hx |]. intros y Hy.
    destruct (p y) eqn:Hpy; [| done].
    specialize (Hp x y Hpx Hpy). congruence.
Qed.

End Distinct.

(** ** [AddRoleTable], [RemoveRoleTable], [SetResolver] *)

Section CoreProps.
Context {refunc : Type} `{!Folding}.
Implicit Types (c : core.Config refunc) (r : core.Role) (t : core.RoleTable).

Lemma set_Roles_same c : core.set_Roles c (core.Roles c) = c.
Proof. by destruct c. Qed.

Lemma set_Tables_same r : core.set_Tables r (core.Role_Tables r) = r.
Proof. by destruct r. Qed.

Lemma set_Roles_twice c l1 l2 :
  core.set_Roles (core.set_Roles c l1) l2 = core.set_Roles c l2.
Proof. done. Qed.

Lemma role_named_same role r1 r2 :
  core.role_named role r1 = true → core.role_named role r2 = true →
  core.same_role r1 r2 = true.
Proof.
  unfold core.role_named, core.same_role. intros H1 H2.
  eapply EqualFold_trans; [exact H1 | by apply EqualFold_sym].
Qed.

Lemma table_named_same table schema t1 t2 :
  core.table_named table schema t1 = true → core.table_named table schema t2 = true →
  core.same_table t1 t2 = true.
Proof.
  unfold core.table_named, core.same_table.
  rewrite !andb_true_iff. intros [Hn1 Hs1] [Hn2 Hs2]. split.
  - eapply EqualFold_trans; [exact Hn1 | by apply EqualFold_sym].
  - eapply EqualFold_trans; [exact Hs1 | by apply EqualFold_sym].
Qed.

Lemma assign_Name conf t :
  core.RoleTable_Name (core.assign conf t) = core.RoleTable_Name t.
Proof. by destruct conf. Qed.

Lemma assign_Schema conf t :
  core.RoleTable_Schema (core.assign conf t) = core.RoleTable_Schema t.
Proof. by destruct conf. Qed.

(** The type switch of [AddRoleTable] writes [assign conf] through [t],
    whatever [conf] is: for an unsupported value that is no write. *)
Lemma AddRoleTable_unfold c role table conf :
  (core.AddRoleTable c role table conf).1 =
  let '(c1, ri) := core.role_ptr c role in
  let '(schema, name) := core.split_table table in
  let '(c2, ti) := core.table_ptr c1 ri name schema in
  core.update_role c2 ri
    (λ r, core.set_Tables r (alter (core.assign conf) ti (core.Role_Tables r))).
Proof.
  unfold core.AddRoleTable.
  destruct (core.role_ptr c role) as [c1 ri].
  destruct (core.split_table table) as [schema name].
  destruct (core.table_ptr c1 ri name schema) as [c2 ti].
  destruct conf; try done. simpl.
  unfold core.update_role.
  rewrite (list_alter_id _ (core.Roles c2)); [by rewrite set_Roles_same |].
  intros r. rewrite (list_alter_id _ (core.Role_Tables r)) by done.
  apply set_Tables_same.
Qed.

Lemma tables_of_middle c pre r post :
  core.Roles c = pre ++ r :: post →
  core.tables_of c (length pre) = core.Role_Tables r.
Proof. intros Hc. unfold core.tables_of. by rewrite Hc, list_lookup_middle. Qed.

Lemma update_role_middle c pre r post f :
  core.Roles c = pre ++ r :: post →
  core.update_role c (length pre) f = core.set_Roles c (pre ++ f r :: post).
Proof. intros Hc. unfold core.update_role. by rewrite Hc, alter_at_middle. Qed.

Lemma roles_unique_iff c :
  core.roles_unique c = true ↔
  pairwise_distinct core.same_role (core.Roles c) = true
  ∧ Forall (λ r, pairwise_distinct core.same_table (core.Role_Tables r) = true)
      (core.Roles c).
Proof.
  unfold core.roles_unique. rewrite andb_true_iff, forallb_forall, Forall_forall.
  by setoid_rewrite list_elem_of_In.
Qed.

(** The table block of [AddRoleTable] on its own: the tables of the role
    afterwards, and that they are still pairwise distinct. *)
Lemma tables_updated conf name schema (tables : list core.RoleTable) :
  pairwise_distinct core.same_table tables = true →
  ∃ tables',
    (let '(ti, l) :=
       match index_where (core.table_named name schema) tables with
       | Some i => (i, tables)
       | None => (length tables, tables ++ [core.new_RoleTable name schema])
       end in
     alter (core.assign conf) ti l) = tables'
    ∧ pairwise_distinct core.same_table tables' = true
    ∧ replaced_or_appended (core.table_named name schema)
        (λ t t', t' = core.assign conf t) (core.new_RoleTable name schema)
        tables tables'.
Proof.
  intros Hd. eexists. split; [reflexivity |].
  destruct (index_where _ tables) as [ti|] eqn:Hti.
  - apply index_where_Some in Hti as (tpre & t & tpost & -> & <- & Hpre & Ht).
    rewrite alter_at_middle. split.
    + revert Hd. apply pairwise_distinct_replace; intros y; unfold core.same_table;
        by rewrite assign_Name, assign_Schema.
    + left. exists tpre, t, (core.assign conf t), tpost. split_and!; try done.
      eapply pairwise_distinct_one_match; [| exact Hd | exact Ht].
      apply table_named_same.
  - apply index_where_None in Hti.
    rewrite alter_at_end. split.
    + apply pairwise_distinct_snoc; [done |].
      eapply Forall_impl; [exact Hti |]. intros y Hy.
      unfold core.same_table. by rewrite assign_Name, assign_Schema.
    + right. by eexists.
Qed.

Lemma table_block c pre r post conf name schema :
  core.Roles c = pre ++ r :: post →
  (let '(c2, ti) := core.table_ptr c (length pre) name schema in
   core.update_role c2 (length pre)
     (λ r, core.set_Tables r (alter (core.assign conf) ti (core.Role_Tables r))))
  = core.set_Roles c
      (pre ++ core.set_Tables r
         (let '(ti, l) :=
            match index_where (core.table_named name schema) (core.Role_Tables r) with
            | Some i => (i, core.Role_Tables r)
            | None => (length (core.Role_Tables r),
                       core.Role_Tables r ++ [core.new_RoleTable name schema])
            end in
          alter (core.assign conf) ti l) :: post).
Proof.
  intros Hc. unfold core.table_ptr. rewrite (tables_of_middle _ _ _ _ Hc).
  destruct (index_where _ (core.Role_Tables r)) as [ti|].
  - by rewrite (update_role_middle _ _ _ _ _ Hc).
  - rewrite (update_role_middle c _ _ _ _ Hc).
    by erewrite update_role_middle by reflexivity.
Qed.

(** C5. [AddRoleTable] keeps role names and each role's (schema, table)
    pairs unique up to case: on a configuration with unique roles and
    tables it replaces the one matching role, and in it the one matching
    table, in place, or appends exactly one new entry where there is no
    match; nothing else in the configuration changes, the result again
    has unique roles and tables, and a policy value is never refused. *)
Theorem AddRoleTable_keeps_roles_unique c role table conf :
  core.roles_unique c = true →
  core.roles_unique (core.AddRoleTable c role table conf).1 = true
  ∧ core.set_Roles (core.AddRoleTable c role table conf).1 (core.Roles c) = c
  ∧ replaced_or_appended (core.role_named role)
      (core.role_updated conf (core.split_table table).2 (core.split_table table).1)
      (core.new_Role role) (core.Roles c)
      (core.Roles (core.AddRoleTable c role table conf).1)
  ∧ (conf ≠ core.ConfOther → (core.AddRoleTable c role table conf).2 = None).
Proof.
  intros [Hd Ht]%roles_unique_iff.
  assert (conf ≠ core.ConfOther → (core.AddRoleTable c role table conf).2 = None)
    as Herr.
  { unfold core.AddRoleTable.
    destruct (core.role_ptr c role) as [c1 ri].
    destruct (core.split_table table) as [schema name].
    destruct (core.table_ptr c1 ri name schema) as [c2 ti].
    by destruct conf. }
  rewrite AddRoleTable_unfold.
  destruct (core.split_table table) as [schema name]. simpl.
  unfold core.role_ptr.
  destruct (index_where _ (core.Roles c)) as [ri|] eqn:Hri.
  - apply index_where_Some in Hri as (pre & r & post & Hc & <- & Hpre & Hr).
    rewrite (table_block _ _ _ _ _ _ _ Hc).
    destruct (tables_updated conf name schema (core.Role_Tables r))
      as (tables' & -> & Hd' & Hspec).
    { rewrite Hc, Forall_app, Forall_cons in Ht. tauto. }
    split_and!; [| by rewrite set_Roles_twice, set_Roles_same | | done].
    + apply roles_unique_iff. simpl. split.
      * rewrite Hc in Hd. revert Hd. by apply pairwise_distinct_replace.
      * rewrite Hc, !Forall_app, !Forall_cons in *. tauto.
    + left. exists pre, r, (core.set_Tables r tables'), post.
      split_and!; try done.
      rewrite Hc in Hd.
      eapply pairwise_distinct_one_match; [| exact Hd | exact Hr].
      apply role_named_same.
  - apply index_where_None in Hri.
    erewrite (table_block (core.set_Roles c _) (core.Roles c) (core.new_Role role) [])
      by reflexivity.
    destruct (tables_updated conf name schema (core.Role_Tables (core.new_Role role)))
      as (tables' & -> & Hd' & Hspec); [done |].
    rewrite set_Roles_twice.
    split_and!; [| by rewrite set_Roles_twice, set_Roles_same | | done].
    + apply roles_unique_iff. simpl. split.
      * apply pairwise_distinct_snoc; [done |].
        eapply Forall_impl; [exact Hri |]. by intros y Hy.
      * rewrite Forall_app, Forall_singleton. by split.
    + right. eexists. by split_and!.
Qed.

Lemma index_where_middle {A} (p : A → bool) (pre : list A) x post :
  Forall (λ y, p y = false) pre → p x = true →
  index_where p (pre ++ x :: post) = Some (length pre).
Proof. intros Hpre Hx. apply index_where_Some. by exists pre, x, post. Qed.

(** C10. [RemoveRoleTable] fails, and leaves the configuration as it
    is, when no role has the given name or when the first such role has no
    table with the given schema and name; otherwise it removes that one
    table from the role, and the role as well when that was its last
    table. *)
Theorem RemoveRoleTable_spec c role table :
  let '(schema, name) := core.split_table table in
  (Forall (λ r, core.role_named role r = false) (core.Roles c) →
   core.RemoveRoleTable c role table = (c, Some (core.ErrRoleNotFound role)))
  ∧ (∀ pre r post,
       core.Roles c = pre ++ r :: post →
       Forall (λ y, core.role_named role y = false) pre →
       core.role_named role r = true →
       (Forall (λ t, core.table_named name schema t = false) (core.Role_Tables r) →
        core.RemoveRoleTable c role table = (c, Some (core.ErrTableNotFound name)))
       ∧ (∀ tpre t tpost,
            core.Role_Tables r = tpre ++ t :: tpost →
            Forall (λ y, core.table_named name schema y = false) tpre →
            core.table_named name schema t = true →
            core.RemoveRoleTable c role table =
              (core.set_Roles c
                 (if decide (tpre ++ tpost = [])
                  then pre ++ post
                  else pre ++ core.set_Tables r (tpre ++ tpost) :: post),
               None))).
Proof.
  destruct (core.split_table table) as [schema name] eqn:Hsplit.
  unfold core.RemoveRoleTable. split.
  - intros Hnone%index_where_None. by rewrite Hnone.
  - intros pre r post Hc Hpre Hr.
    assert (index_where (core.role_named role) (core.Roles c) = Some (length pre))
      as -> by (rewrite Hc; by apply index_where_middle).
    rewrite Hsplit, (tables_of_middle _ _ _ _ Hc). split.
    + intros Hnone%index_where_None. by rewrite Hnone.
    + intros tpre t tpost Hts Htpre Htt. rewrite Hts.
      rewrite (index_where_middle _ _ _ _ Htpre Htt), remove_at_middle.
      rewrite (update_role_middle _ _ _ _ _ Hc).
      erewrite tables_of_middle by reflexivity. simpl.
      destruct (tpre ++ tpost) as [|t' ts'] eqn:Hrest; simpl.
      * by rewrite remove_at_middle.
      * done.
Qed.

(** C7. [SetResolver] keeps the registry a map from type names to
    constructors: a name that is not registered is bound to [fn], nothing
    else changes and no error is returned; a name that is registered is
    refused with an error and the configuration, the earlier binding
    included, stays as it is. *)
Theorem SetResolver_spec c name (fn : refunc) :
  (core.registry c !! name = None →
   ∃ c', core.SetResolver c name fn = (c', None)
         ∧ core.registry c' = <[name := fn]> (core.registry c)
         ∧ core.set_rtmap c' (core.rtmap c) = c)
  ∧ (∀ fn0, core.registry c !! name = Some fn0 →
       core.SetResolver c name fn = (c, Some (core.ErrResolverDefined name))).
Proof.
  unfold core.SetResolver, core.registry. destruct c as [? ? ? ? ? ? ? ? ? ? ? ? ? ? [m|]];
    simpl; split.
  - intros ->. by eexists.
  - by intros fn0 ->.
  - intros _. rewrite lookup_empty. by eexists.
  - intros fn0. by rewrite lookup_empty.
Qed.

End CoreProps.

(** ** [validateConf] and [initConfig] *)

Section ServProps.
Context {refunc : Type} (defaultHP : string).
Implicit Types (s : serv.service refunc).

(** C3. With no role named [anon] and [Core.DefaultBlock] set,
    [validateConf] does not fail: it sets [AuthFailBlock] to false and logs
    one warning, and nothing else changes; [Core.DefaultBlock] itself
    stays set. *)
Theorem validateConf_without_anon s :
  Forall (λ r, core.Role_Name r ≠ "anon") (core.Roles (serv.Core (serv.conf s))) →
  core.DefaultBlock (serv.Core (serv.conf s)) = true →
  serv.AuthFailBlock (serv.conf (serv.validateConf s)) = false
  ∧ serv.log (serv.validateConf s) =
      serv.log s ++
      [serv.Warn "unauthenticated requests will be blocked. no role 'anon' defined"]
  ∧ serv.set_AuthFailBlock (serv.conf (serv.validateConf s))
      (serv.AuthFailBlock (serv.conf s)) = serv.conf s
  ∧ serv.asec (serv.validateConf s) = serv.asec s
  ∧ core.DefaultBlock (serv.Core (serv.conf (serv.validateConf s))) = true.
Proof.
  intros Hanon Hblock. unfold serv.validateConf.
  assert (existsb (λ r, bool_decide (core.Role_Name r = "anon"))
            (core.Roles (serv.Core (serv.conf s))) = false) as ->.
  { induction Hanon as [|r l Hr _ IH]; simpl; [done |].
    by rewrite IH, bool_decide_eq_false_2. }
  rewrite Hblock. simpl. split_and!; try done.
  by destruct s as [[] ? ?].
Qed.

Lemma check_auths_NoDup auths am :
  NoDup (serv.Auth_Name <$> auths) →
  (∀ n, n ∈ serv.Auth_Name <$> auths → n ∉ am) →
  serv.check_auths auths am = inr (list_to_set (serv.Auth_Name <$> auths) ∪ am).
Proof.
  revert am. induction auths as [|a auths IH]; intros am Hnd Ham; simpl.
  - f_equal. set_solver.
  - rewrite fmap_cons in Hnd, Ham. apply NoDup_cons in Hnd as [Ha Hnd].
    rewrite decide_False by (apply Ham; set_solver).
    rewrite IH; [f_equal; set_solver | done |].
    intros n Hn. specialize (Ham n). set_solver.
Qed.

Lemma check_auths_dup auths am :
  ¬ (NoDup (serv.Auth_Name <$> auths)
     ∧ ∀ n, n ∈ serv.Auth_Name <$> auths → n ∉ am) →
  ∃ n, serv.check_auths auths am = inl (serv.ErrDuplicateAuth n).
Proof.
  revert am. induction auths as [|a auths IH]; intros am Hbad; simpl.
  - destruct Hbad. split; [constructor | set_solver].
  - destruct (decide (serv.Auth_Name a ∈ am)) as [Hin|Hout]; [by eexists |].
    apply IH. intros [Hnd Ham]. apply Hbad. rewrite fmap_cons. split.
    + apply NoDup_cons. split; [| done]. intros Hin. specialize (Ham _ Hin). set_solver.
    + intros n [->|Hn]%elem_of_cons; [done |]. specialize (Ham _ Hn). set_solver.
Qed.

(** Running [initConfig] step by step. *)
Ltac run_initConfig :=
  unfold serv.initConfig, mbind, serv.M_bind, serv.bind, serv.write_core,
    serv.write_conf, serv.get_conf, serv.when, serv.lift, serv.fail, serv.ret,
    mret, serv.M_ret;
  simpl.

(** Case analysis on what the rest of [initConfig] branches on. *)
Ltac split_initConfig :=
  repeat match goal with
    | |- context [serv.check_auths ?a ?b] =>
        destruct (serv.check_auths a b) as [?|?]; simpl
    | |- context [serv.check_actions ?a ?b ?c] =>
        destruct (serv.check_actions a b c) as [?|[]]; simpl
    | |- context [strings.SplitN2 ?a ?b] =>
        destruct (strings.SplitN2 a b) as [|? [|? [|? ?]]]; simpl
    | |- context [bool_decide ?P] => destruct (bool_decide P) eqn:?; simpl
    | |- context [serv.HotDeploy ?c] => destruct (serv.HotDeploy c) eqn:?; simpl
    end.

(** C6, as the code has it. With hot deployment enabled, [initConfig]
    returns an error when [AdminSecretKey] is empty; when it is not empty
    and no two entries of [Auths] share a name, the SHA-256 hash of the key
    is stored in [asec] and the key itself stays where it was; when two
    entries of [Auths] share a name, [initConfig] returns that error first
    and [asec] is left as it was. *)
Theorem initConfig_admin_secret s :
  serv.HotDeploy (serv.conf s) = true →
  (serv.AdminSecretKey (serv.conf s) = "" →
   ∃ e, (serv.initConfig defaultHP s).1 = serv.Failed e)
  ∧ (serv.AdminSecretKey (serv.conf s) ≠ "" →
     NoDup (serv.Auth_Name <$> serv.Auths (serv.conf s)) →
     serv.asec (serv.initConfig defaultHP s).2
       = sha256.Sum256 (serv.AdminSecretKey (serv.conf s))
     ∧ serv.AdminSecretKey (serv.conf (serv.initConfig defaultHP s).2)
       = serv.AdminSecretKey (serv.conf s))
  ∧ (¬ NoDup (serv.Auth_Name <$> serv.Auths (serv.conf s)) →
     (∃ n, (serv.initConfig defaultHP s).1 = serv.Failed (serv.ErrDuplicateAuth n))
     ∧ serv.asec (serv.initConfig defaultHP s).2 = serv.asec s).
Proof.
  intros Hhot. split_and!.
  - intros Hkey. run_initConfig. rewrite Hhot, Hkey. simpl.
    split_initConfig; by eexists.
  - intros Hkey Hnd. run_initConfig.
    rewrite check_auths_NoDup, Hhot by (done || set_solver).
    rewrite (bool_decide_eq_true_2 _ Hkey). simpl.
    split_initConfig; done.
  - intros Hdup. run_initConfig.
    destruct (check_auths_dup (serv.Auths (serv.conf s)) ∅) as [n ->]; [tauto |].
    simpl. split_initConfig; split; by try eexists.
Qed.

(** C8, as the code has it. When [Auth.Type] is empty or ["none"] and
    [initConfig] returns without an error, [Core.DefaultBlock] is false
    afterwards, whatever it was before. *)
Theorem initConfig_no_auth_unblocks s :
  serv.Auth_Type (serv.Auth (serv.conf s)) = ""
  ∨ serv.Auth_Type (serv.Auth (serv.conf s)) = "none" →
  (serv.initConfig defaultHP s).1 = serv.Done tt →
  core.DefaultBlock (serv.Core (serv.conf (serv.initConfig defaultHP s).2)) = false.
Proof.
  intros Htype. run_initConfig.
  assert (bool_decide (serv.Auth_Type (serv.Auth (serv.conf s)) = "")
          || bool_decide (serv.Auth_Type (serv.Auth (serv.conf s)) = "none") = true)
    as ->.
  { destruct Htype as [-> | ->]; by rewrite ?orb_true_r. }
  split_initConfig; done.
Qed.

End ServProps.

(** ** [readInConfig] *)

Section ReadProps.
Context {refunc : Type}.
Context (Dir Base Ext : string → string) (Join : string → string → string).
Context (osFs : viper.Fs) (Environ : list string).
Context (SetKeyValue : viper.Viper → string → string → viper.Viper).
Context (Unmarshal : viper.Viper → core.Config refunc → option (core.Config refunc)).

Local Abbreviation newViper := (core.newViper Ext Join osFs).
Local Abbreviation decode := (core.decode refunc Dir Environ SetKeyValue Unmarshal).
Local Abbreviation readInConfig :=
  (core.readInConfig refunc Dir Base Ext Join osFs Environ SetKeyValue Unmarshal).

Lemma newViper_fs cp file : viper.fs (newViper cp file) = osFs.
Proof.
  unfold core.newViper, viper.SetConfigFile, viper.SetConfigName, viper.AddConfigPath.
  repeat (case_bool_decide || case_match); done.
Qed.

Lemma with_fs_fs fs cp file :
  viper.fs (core.with_fs fs (newViper cp file)) = default osFs fs.
Proof. destruct fs; simpl; [done | apply newViper_fs]. Qed.

(** A successful read leaves the file in use set, and the settings are
    those loaded from it. *)
Lemma ReadInConfig_inr v v' :
  viper.ReadInConfig v = inr v' →
  viper.configFile v' ≠ ""
  ∧ viper.load (viper.fs v) (viper.configFile v') = Some (viper.config v')
  ∧ viper.fs v' = viper.fs v ∧ viper.override v' = viper.override v.
Proof.
  unfold viper.ReadInConfig, viper.getConfigFile.
  repeat case_bool_decide; try done;
    destruct (viper.load _ _) eqn:Hload; intros [= <-]; by simpl.
Qed.

(** A file that names no parent is decoded as it is. *)
Lemma readInConfig_plain configFile fs vi :
  viper.ReadInConfig (core.with_fs fs (newViper (Dir configFile) (Base configFile)))
    = inr vi →
  viper.GetString vi "inherits" = "" →
  readInConfig configFile fs = decode vi.
Proof.
  intros Hread Hplain. unfold core.readInConfig.
  by rewrite Hread, Hplain.
Qed.

(** C9. [readInConfig] follows the key [inherits] one level only. When
    the file read first names a parent and the parent can be read: if the
    parent names a parent of its own, [readInConfig] returns an error and no
    configuration; otherwise the configuration is decoded from the settings
    of the parent with those of the first file merged over them, so that a
    key of the first file keeps its value and only the other keys come
    from the parent. *)
Theorem readInConfig_inherits configFile fs vi parent :
  viper.ReadInConfig (core.with_fs fs (newViper (Dir configFile) (Base configFile)))
    = inr vi →
  viper.GetString vi "inherits" ≠ "" →
  viper.ReadInConfig
    (core.with_fs fs (newViper (Dir configFile) (viper.GetString vi "inherits")))
    = inr parent →
  (viper.GetString parent "inherits" ≠ "" →
   readInConfig configFile fs =
     core.Error (core.ErrInheritedInherits (viper.GetString vi "inherits")
                   (viper.GetString parent "inherits")))
  ∧ (viper.GetString parent "inherits" = "" →
     ∃ merged,
       readInConfig configFile fs = decode merged
       ∧ viper.ConfigFileUsed merged = viper.ConfigFileUsed vi
       ∧ viper.config merged = viper.config vi ∪ viper.config parent
       ∧ (∀ k v, viper.config vi !! k = Some v → viper.config merged !! k = Some v)
       ∧ (∀ k, viper.config vi !! k = None →
               viper.config merged !! k = viper.config parent !! k)).
Proof.
  intros Hread Hpcf Hparent.
  unfold core.readInConfig. rewrite Hread, (bool_decide_eq_true_2 _ Hpcf).
  unfold core.inherit. rewrite Hparent. split.
  - intros Hnested. by rewrite (bool_decide_eq_true_2 _ Hnested).
  - intros Hplain. rewrite bool_decide_eq_false_2 by (by intros []).
    apply ReadInConfig_inr in Hread as (Hcf & Hload & Hfs & _).
    apply ReadInConfig_inr in Hparent as (_ & _ & Hfs' & _).
    rewrite with_fs_fs in Hload, Hfs'.
    unfold viper.MergeInConfig, viper.getConfigFile, viper.SetConfigFile,
      viper.ConfigFileUsed.
    rewrite (bool_decide_eq_false_2 _ Hcf). simpl.
    rewrite (bool_decide_eq_false_2 _ Hcf), Hfs', Hload.
    eexists. split; [reflexivity |]. simpl. split_and!; [done | done | |].
    + intros k v Hk. by apply lookup_union_Some_l.
    + intros k Hk. by apply lookup_union_r.
Qed.

End ReadProps.

(** ** The request path *)

Section CompilerProps.
Context {refunc select : Type}.
Context (qcompile : string → string → string → compiler.error + select).
Context (generate : select → option string).
Context (fingerprint : string → string → string → string).

(** C1. In locked mode, that is in production with the allow list not
    disabled, compiling a fingerprint that is absent from the Allow-List
    Store fails with [AccessDeniedError]; the store is left as it is and
    neither a compilation of the query text nor a SQL generation attempt
    is recorded. *)
Theorem compile_locked_absent (c : core.Config refunc)
    (st : compiler.engine select) text op role :
  core.Production c = true →
  core.DisableAllowList c = false →
  compiler.store st !! fingerprint text op role = None →
  compiler.compile qcompile generate fingerprint c st text op role
    = (inl compiler.AccessDeniedError, st).
Proof.
  intros Hprod Hallow Habsent. unfold compiler.compile, compiler.locked.
  by rewrite Habsent, Hprod, Hallow.
Qed.

(** C2. For an insert, update or upsert under a role whose policy has a
    preset for a column, the write payload binds that column to the preset
    value, whatever the client supplied, a value for the same column
    included. *)
Theorem write_payload_preset rt m col v (input : gmap string string) :
  compiler.presets rt m !! col = Some v →
  compiler.write_payload rt m input !! col = Some v.
Proof. intros Hpreset. by apply lookup_union_Some_l. Qed.

(** C4. The effective row limit is the minimum of the client-requested
    limit, the limit of the role's Query policy and the global default
    limit: it exceeds none of the three and is one of them. *)
Theorem effective_limit_min (c : core.Config refunc) q (requested : Z) :
  compiler.effective_limit c q requested
    = Z.min requested (Z.min (core.Query_Limit q) (core.DefaultLimit c))
  ∧ (compiler.effective_limit c q requested ≤ requested)%Z
  ∧ (compiler.effective_limit c q requested ≤ core.Query_Limit q)%Z
  ∧ (compiler.effective_limit c q requested ≤ core.DefaultLimit c)%Z.
Proof.
  unfold compiler.effective_limit.
  destruct (Z.ltb_spec requested (core.Query_Limit q));
    [destruct (Z.ltb_spec requested (core.DefaultLimit c))
    |destruct (Z.ltb_spec (core.Query_Limit q) (core.DefaultLimit c))]; lia.
Qed.

End CompilerProps.

(** ** Worked instances *)

Example EqualFold_posts : strings.EqualFoldASCII "Posts" "pOSTS" = true.
Proof. reflexivity. Qed.

Example EqualFold_differs : strings.EqualFoldASCII "posts" "post" = false.
Proof. reflexivity. Qed.

Example SplitN2_qualified : strings.SplitN2 "public.posts.v2" "." = ["public"; "posts.v2"].
Proof. reflexivity. Qed.

Example SplitN2_plain : strings.SplitN2 "posts" "." = ["posts"].
Proof. reflexivity. Qed.

(** The hash agrees with the published SHA-256 test vectors, one and two
    blocks long. *)
Example Sum256_abc :
  sha256.be_number (sha256.Sum256 "abc")
  = 0xba7816bf8f01cfea414140de5dae2223b00361a396177a9cb410ff61f20015ad%Z.
Proof. vm_compute. reflexivity. Qed.

Example Sum256_empty :
  sha256.be_number (sha256.Sum256 "")
  = 0xe3b0c44298fc1c149afbf4c8996fb92427ae41e4649b934ca495991b7852b855%Z.
Proof. vm_compute. reflexivity. Qed.

Example Sum256_two_blocks :
  sha256.be_number
    (sha256.Sum256 "abcdbcdecdefdefgefghfghighijhijkijkljklmklmnlmnomnopnopq")
  = 0x248d6a61d20638b8e5c026930c3e6039a33ce45964ff2167f6ecedd419db06c1%Z.
Proof. vm_compute. reflexivity. Qed.

Example Sum256_length : length (sha256.Sum256 "admin secret") = 32.
Proof. vm_compute. reflexivity. Qed.

Section Witnesses.
Local Existing Instance ascii_folding.

Example AddRoleTable_new_table :
  core.Roles (core.AddRoleTable samples.config "USER" "public.Posts"
                (core.ConfQuery samples.by_owner)).1
  = [core.set_Tables samples.user
       [samples.posts; samples.comments;
        core.assign (core.ConfQuery samples.by_owner)
          (core.new_RoleTable "Posts" "public")];
     samples.guest].
Proof. reflexivity. Qed.

Example AddRoleTable_in_place :
  core.Roles (core.AddRoleTable samples.config "User" "POSTS"
                (core.ConfQuery samples.by_owner)).1
  = [core.set_Tables samples.user
       [core.assign (core.ConfQuery samples.by_owner) samples.posts; samples.comments];
     samples.guest].
Proof. reflexivity. Qed.

Lemma AddRoleTable_keeps_roles_unique_witness :
  core.roles_unique samples.config = true
  ∧ core.roles_unique
      (core.AddRoleTable samples.config "USER" "public.Posts"
         (core.ConfQuery samples.by_owner)).1 = true.
Proof.
  split; [reflexivity |].
  apply (AddRoleTable_keeps_roles_unique samples.config "USER" "public.Posts"
           (core.ConfQuery samples.by_owner)).
  reflexivity.
Defined.

Lemma RemoveRoleTable_spec_witness :
  core.RemoveRoleTable samples.config "Guest" "public.comments"
  = (core.set_Roles samples.config [samples.user], None).
Proof.
  pose proof (RemoveRoleTable_spec samples.config "Guest" "public.comments") as Hspec.
  simpl in Hspec. destruct Hspec as [_ Hspec].
  destruct (Hspec [samples.user] samples.guest []) as [_ Hfound];
    [reflexivity | by repeat constructor | reflexivity |].
  exact (Hfound [] samples.comments [] eq_refl (Forall_nil_2 _) eq_refl).
Defined.

Lemma SetResolver_spec_witness :
  core.SetResolver (core.SetResolver samples.config "redis" 1%nat).1 "redis" 2%nat
  = ((core.SetResolver samples.config "redis" 1%nat).1,
     Some (core.ErrResolverDefined "redis")).
Proof.
  apply (SetResolver_spec (core.SetResolver samples.config "redis" 1%nat).1
           "redis" 2%nat) with (fn0 := 1%nat).
  reflexivity.
Defined.

End Witnesses.

Section ServWitnesses.

Lemma validateConf_without_anon_witness :
  serv.AuthFailBlock (serv.conf (serv.validateConf (samples.service [] ""))) = false
  ∧ serv.log (serv.validateConf (samples.service [] ""))
    = [serv.Warn "unauthenticated requests will be blocked. no role 'anon' defined"]
  ∧ core.DefaultBlock (serv.Core (serv.conf (serv.validateConf (samples.service [] ""))))
    = true.
Proof.
  destruct (validateConf_without_anon (samples.service [] ""))
    as (Hflag & Hlog & _ & _ & Hblock).
  - repeat constructor; discriminate.
  - reflexivity.
  - exact (conj Hflag (conj Hlog Hblock)).
Defined.

(** With distinct auth names the hash of the key is stored. *)
Lemma initConfig_admin_secret_witness :
  serv.HotDeploy (serv.conf (samples.service [samples.jwt] "k")) = true
  ∧ serv.asec (serv.initConfig samples.defaultHP (samples.service [samples.jwt] "k")).2
    = sha256.Sum256 "k".
Proof.
  split; [reflexivity |].
  refine (proj1 (proj1 (proj2 (initConfig_admin_secret samples.defaultHP
                                 (samples.service [samples.jwt] "k") eq_refl)) _ _)).
  - discriminate.
  - apply NoDup_singleton.
Defined.

(** C6 as stated fails: hot deployment is enabled and the key is not
    empty, but two auths share a name; [initConfig] returns that error
    before it reaches the key, and [asec] is still all zero, not the hash. *)
Lemma initConfig_duplicate_auth_skips_hash :
  serv.HotDeploy (serv.conf (samples.service [samples.jwt; samples.jwt] "k")) = true
  ∧ serv.AdminSecretKey (serv.conf (samples.service [samples.jwt; samples.jwt] "k")) = "k"
  ∧ (serv.initConfig samples.defaultHP (samples.service [samples.jwt; samples.jwt] "k")).1
    = serv.Failed (serv.ErrDuplicateAuth "jwt")
  ∧ serv.asec
      (serv.initConfig samples.defaultHP (samples.service [samples.jwt; samples.jwt] "k")).2
    = replicate 32 0%Z
  ∧ serv.asec
      (serv.initConfig samples.defaultHP (samples.service [samples.jwt; samples.jwt] "k")).2
    ≠ sha256.Sum256 "k".
Proof.
  split_and!; [reflexivity | reflexivity | reflexivity | reflexivity |].
  vm_compute. discriminate.
Qed.

Lemma initConfig_no_auth_unblocks_witness :
  serv.Auth_Type (serv.Auth (serv.conf (samples.service [samples.jwt] "k"))) = "none"
  ∧ core.DefaultBlock (serv.Core (serv.conf (samples.service [samples.jwt] "k"))) = true
  ∧ core.DefaultBlock
      (serv.Core
         (serv.conf
            (serv.initConfig samples.defaultHP (samples.service [samples.jwt] "k")).2))
    = false.
Proof.
  split_and!; [reflexivity | reflexivity |].
  apply (initConfig_no_auth_unblocks samples.defaultHP (samples.service [samples.jwt] "k")).
  - right. reflexivity.
  - reflexivity.
Defined.

(** C8 as stated fails: no authentication is configured and
    [default_block] is set, but hot deployment is enabled without an admin
    secret key; [initConfig] returns that error and [Core.DefaultBlock] is
    still set. *)
Lemma initConfig_error_keeps_DefaultBlock :
  serv.Auth_Type (serv.Auth (serv.conf (samples.service [] ""))) = "none"
  ∧ (serv.initConfig samples.defaultHP (samples.service [] "")).1
    = serv.Failed serv.ErrAdminSecretKey
  ∧ core.DefaultBlock
      (serv.Core (serv.conf (serv.initConfig samples.defaultHP (samples.service [] "")).2))
    = true.
Proof. split_and!; reflexivity. Qed.

End ServWitnesses.

Section ReadWitnesses.

Example readInConfig_dev :
  core.DBType <$>
    (match sample_files.readInConfig "config/dev.yml" None with
     | core.Ok c => Some c
     | _ => None
     end) = Some "postgres".
Proof. vm_compute. reflexivity. Qed.

Example readInConfig_deep :
  sample_files.readInConfig "config/deep.yml" None
  = core.Error (core.ErrInheritedInherits "dev.yml" "base.yml").
Proof. vm_compute. reflexivity. Qed.

Example readInConfig_missing :
  sample_files.readInConfig "config/prod.yml" None
  = core.Error (core.ErrViper (viper.ConfigReadError "config/prod.yml")).
Proof. vm_compute. reflexivity. Qed.

Lemma readInConfig_inherits_witness :
  ∃ merged,
    sample_files.readInConfig "config/dev.yml" None
    = core.decode nat sample_files.Dir sample_files.Environ sample_files.SetKeyValue
        sample_files.Unmarshal merged
    ∧ viper.config merged !! "default_limit" = Some "50"
    ∧ viper.config merged !! "db_type" = Some "postgres".
Proof.
  destruct (readInConfig_inherits sample_files.Dir sample_files.Base sample_files.Ext
              sample_files.Join sample_files.fs sample_files.Environ
              sample_files.SetKeyValue sample_files.Unmarshal
              "config/dev.yml" None sample_files.dev sample_files.base)
    as [_ Hmerge].
  - vm_compute. reflexivity.
  - vm_compute. discriminate.
  - vm_compute. reflexivity.
  - destruct Hmerge as (merged & Hrun & _ & _ & Hown & Hparent);
      [vm_compute; reflexivity |].
    exists merged. split; [exact Hrun |]. split.
    + apply Hown. vm_compute. reflexivity.
    + rewrite Hparent; vm_compute; reflexivity.
Defined.

End ReadWitnesses.

Section CompilerWitnesses.

Example compile_unlocked_records :
  compiler.trace (sample_engine.compile sample_engine.unlocked sample_engine.empty
                    "{ posts { id } }" "query" "user").2
  = [compiler.Compiled "{ posts { id } }";
     compiler.GenerationAttempted "query user { posts { id } }"].
Proof. vm_compute. reflexivity. Qed.

Lemma compile_locked_absent_witness :
  sample_engine.compile samples.config sample_engine.empty
    "{ posts { id } }" "query" "user"
  = (inl compiler.AccessDeniedError, sample_engine.empty).
Proof.
  apply (compile_locked_absent sample_engine.qcompile sample_engine.generate
           sample_engine.fingerprint samples.config sample_engine.empty);
    reflexivity.
Defined.

Lemma write_payload_preset_witness :
  compiler.write_payload samples.posts compiler.MInsert
    {[ "title" := "hi"; "user_id" := "999" ]} !! "user_id"
  = Some "$user_id".
Proof.
  apply (write_payload_preset samples.posts compiler.MInsert "user_id" "$user_id").
  vm_compute. reflexivity.
Defined.

Example effective_limit_role :
  compiler.effective_limit samples.config samples.by_owner 100 = 10%Z.
Proof. reflexivity. Qed.

End CompilerWitnesses.

(** * Further properties *)

(** ** More on [AddRoleTable] and [RemoveRoleTable] *)

Section CoreMore.
Context {refunc : Type} `{!Folding}.
Implicit Types (c : core.Config refunc) (r : core.Role) (t : core.RoleTable).

(** Names that are equal up to case select the same roles and tables. *)
Lemma role_named_fold role role' r :
  EqualFold role role' = true → core.role_named role' r = core.role_named role r.
Proof.
  intros Heq. unfold core.role_named.
  destruct (EqualFold (core.Role_Name r) role) eqn:Hr.
  - by eapply EqualFold_trans.
  - destruct (EqualFold (core.Role_Name r) role') eqn:Hr'; [| done].
    rewrite <- Hr. symmetry. eapply EqualFold_trans; [exact Hr' |].
    by apply EqualFold_sym.
Qed.

Lemma table_named_fold name name' schema schema' t :
  EqualFold name name' = true → EqualFold schema schema' = true →
  core.table_named name' schema' t = core.table_named name schema t.
Proof.
  intros Hn Hs. unfold core.table_named. f_equal.
  - apply (role_named_fold name name'
             {| core.Role_Name := core.RoleTable_Name t; core.Role_Match := "";
                core.Role_Tables := [] |} Hn).
  - apply (role_named_fold schema schema'
             {| core.Role_Name := core.RoleTable_Schema t; core.Role_Match := "";
                core.Role_Tables := [] |} Hs).
Qed.

Lemma table_named_assign name schema conf t :
  core.table_named name schema (core.assign conf t) = core.table_named name schema t.
Proof. unfold core.table_named. by rewrite assign_Name, assign_Schema. Qed.

(** [AddRoleTable] on a configuration that has the role and the table. *)
Lemma AddRoleTable_found c role table conf pre r0 post tpre t0 tpost :
  core.Roles c = pre ++ r0 :: post →
  Forall (λ y, core.role_named role y = false) pre →
  core.role_named role r0 = true →
  core.Role_Tables r0 = tpre ++ t0 :: tpost →
  Forall (λ y, core.table_named (core.split_table table).2 (core.split_table table).1 y
               = false) tpre →
  core.table_named (core.split_table table).2 (core.split_table table).1 t0 = true →
  (core.AddRoleTable c role table conf).1
  = core.set_Roles c
      (pre ++ core.set_Tables r0 (tpre ++ core.assign conf t0 :: tpost) :: post).
Proof.
  intros Hc Hpre Hr0 Hts Htpre Ht0. rewrite AddRoleTable_unfold.
  unfold core.role_ptr. rewrite Hc at 1. rewrite (index_where_middle _ _ _ _ Hpre Hr0).
  destruct (core.split_table table) as [schema name]. simpl in *.
  rewrite (table_block _ _ _ _ _ _ _ Hc), Hts.
  by rewrite (index_where_middle _ _ _ _ Htpre Ht0), alter_at_middle.
Qed.

(** The entry [AddRoleTable] works on, whatever the policy: the role and
    the table it finds or appends, and where they sit. *)
Lemma AddRoleTable_entry c role table :
  ∃ pre r0 post tpre t0 tpost,
    Forall (λ y, core.role_named role y = false) pre
    ∧ core.role_named role r0 = true
    ∧ Forall (λ y, core.table_named (core.split_table table).2
                     (core.split_table table).1 y = false) tpre
    ∧ core.table_named (core.split_table table).2 (core.split_table table).1 t0 = true
    ∧ (core.Roles c = pre ++ r0 :: post
       ∨ core.Roles c = pre ∧ r0 = core.new_Role role ∧ post = [])
    ∧ (core.Role_Tables r0 = tpre ++ t0 :: tpost
       ∨ core.Role_Tables r0 = tpre ∧ tpost = []
         ∧ t0 = core.new_RoleTable (core.split_table table).2 (core.split_table table).1)
    ∧ ∀ conf,
        (core.AddRoleTable c role table conf).1
        = core.set_Roles c
            (pre ++ core.set_Tables r0 (tpre ++ core.assign conf t0 :: tpost) :: post).
Proof.
  destruct (core.split_table table) as [schema name] eqn:Hsplit. simpl.
  assert (∀ r0, ∃ tpre t0 tpost,
    Forall (λ y, core.table_named name schema y = false) tpre
    ∧ core.table_named name schema t0 = true
    ∧ (core.Role_Tables r0 = tpre ++ t0 :: tpost
       ∨ core.Role_Tables r0 = tpre ∧ tpost = [] ∧ t0 = core.new_RoleTable name schema)
    ∧ ∀ conf,
        (let '(ti, l) :=
           match index_where (core.table_named name schema) (core.Role_Tables r0) with
           | Some i => (i, core.Role_Tables r0)
           | None => (length (core.Role_Tables r0),
                      core.Role_Tables r0 ++ [core.new_RoleTable name schema])
           end in
         alter (core.assign conf) ti l) = tpre ++ core.assign conf t0 :: tpost)
    as Htables.
  { intros r0. destruct (index_where _ (core.Role_Tables r0)) as [ti|] eqn:Hti.
    - apply index_where_Some in Hti as (tpre & t0 & tpost & Hts & <- & Htpre & Ht0).
      exists tpre, t0, tpost. split_and!; [done | done | by left |].
      intros conf. by rewrite Hts, alter_at_middle.
    - apply index_where_None in Hti.
      exists (core.Role_Tables r0), (core.new_RoleTable name schema), [].
      split_and!; [done | | by right |].
      + unfold core.table_named. simpl. by rewrite !EqualFold_refl.
      + intros conf. by rewrite alter_at_end. }
  destruct (index_where (core.role_named role) (core.Roles c)) as [ri|] eqn:Hri.
  - apply index_where_Some in Hri as (pre & r0 & post & Hc & <- & Hpre & Hr0).
    destruct (Htables r0) as (tpre & t0 & tpost & Htpre & Ht0 & Hts & Hrun).
    exists pre, r0, post, tpre, t0, tpost. split_and!; try done; [by left |].
    intros conf. rewrite AddRoleTable_unfold, Hsplit. unfold core.role_ptr.
    rewrite Hc at 1. rewrite (index_where_middle _ _ _ _ Hpre Hr0).
    by rewrite (table_block _ _ _ _ _ _ _ Hc), Hrun.
  - destruct (Htables (core.new_Role role)) as (tpre & t0 & tpost & Htpre & Ht0 & Hts & Hrun).
    exists (core.Roles c), (core.new_Role role), [], tpre, t0, tpost.
    split_and!; try done.
    + by apply index_where_None.
    + unfold core.role_named. simpl. apply EqualFold_refl.
    + by right.
    + intros conf. rewrite AddRoleTable_unfold, Hsplit. unfold core.role_ptr. rewrite Hri.
      erewrite (table_block (core.set_Roles c _) (core.Roles c) (core.new_Role role) [])
        by reflexivity.
      by rewrite Hrun, set_Roles_twice.
Qed.

(** Two calls for the same role and table, the second one spelled in any
    case: both work on the one entry. *)
Lemma AddRoleTable_twice c role role' table table' conf1 conf2 :
  EqualFold role role' = true →
  EqualFold (core.split_table table).2 (core.split_table table').2 = true →
  EqualFold (core.split_table table).1 (core.split_table table').1 = true →
  ∃ pre r0 post tpre t0 tpost,
    (∀ conf,
       (core.AddRoleTable c role table conf).1
       = core.set_Roles c
           (pre ++ core.set_Tables r0 (tpre ++ core.assign conf t0 :: tpost) :: post))
    ∧ (core.AddRoleTable (core.AddRoleTable c role table conf1).1 role' table' conf2).1
      = core.set_Roles c
          (pre ++ core.set_Tables r0
             (tpre ++ core.assign conf2 (core.assign conf1 t0) :: tpost) :: post).
Proof.
  intros Hrole Hname Hschema.
  destruct (AddRoleTable_entry c role table)
    as (pre & r0 & post & tpre & t0 & tpost & Hpre & Hr0 & Htpre & Ht0 & _ & _ & Hrun).
  exists pre, r0, post, tpre, t0, tpost. split; [exact Hrun |].
  rewrite (Hrun conf1).
  rewrite (AddRoleTable_found
             (core.set_Roles c
                (pre ++ core.set_Tables r0 (tpre ++ core.assign conf1 t0 :: tpost) :: post))
             role' table' conf2 pre
             (core.set_Tables r0 (tpre ++ core.assign conf1 t0 :: tpost)) post
             tpre (core.assign conf1 t0) tpost eq_refl).
  - by rewrite set_Roles_twice.
  - eapply Forall_impl; [exact Hpre |]. intros y Hy. by rewrite (role_named_fold role).
  - by rewrite (role_named_fold role).
  - done.
  - eapply Forall_impl; [exact Htpre |]. intros y Hy.
    by rewrite (table_named_fold _ _ _ _ _ Hname Hschema).
  - by rewrite (table_named_fold _ _ _ _ _ Hname Hschema), table_named_assign.
Qed.

Lemma assign_same_operation conf1 conf2 t :
  core.same_operation conf1 conf2 = true →
  core.assign conf2 (core.assign conf1 t) = core.assign conf2 t.
Proof. by destruct conf1, conf2. Qed.

Lemma assign_other_operation conf1 conf2 t :
  core.same_operation conf1 conf2 = false →
  core.assign conf2 (core.assign conf1 t) = core.assign conf1 (core.assign conf2 t).
Proof. by destruct conf1, conf2. Qed.

(** X1. Calling [AddRoleTable] again for the same role and table with the
    same policy changes nothing, also when the names are spelled in
    another case the second time: the entry keeps its first spelling. *)
Theorem AddRoleTable_again c role role' table table' conf :
  EqualFold role role' = true →
  EqualFold (core.split_table table).2 (core.split_table table').2 = true →
  EqualFold (core.split_table table).1 (core.split_table table').1 = true →
  (core.AddRoleTable (core.AddRoleTable c role table conf).1 role' table' conf).1
  = (core.AddRoleTable c role table conf).1.
Proof.
  intros Hrole Hname Hschema.
  destruct (AddRoleTable_twice c role role' table table' conf conf Hrole Hname Hschema)
    as (pre & r0 & post & tpre & t0 & tpost & Hone & ->).
  rewrite Hone. do 4 f_equal. by destruct conf.
Qed.

(** X2. Of two policies for the same operation given to the same role and
    table one after the other, the second replaces the first: the result
    is that of giving the second alone. *)
Theorem AddRoleTable_last_wins c role table conf1 conf2 :
  core.same_operation conf1 conf2 = true →
  (core.AddRoleTable (core.AddRoleTable c role table conf1).1 role table conf2).1
  = (core.AddRoleTable c role table conf2).1.
Proof.
  intros Hop.
  destruct (AddRoleTable_twice c role role table table conf1 conf2)
    as (pre & r0 & post & tpre & t0 & tpost & Hone & ->); try apply EqualFold_refl.
  by rewrite Hone, assign_same_operation.
Qed.

(** X3. Policies for different operations of one role and table do not
    interfere: giving them in either order yields the same configuration. *)
Theorem AddRoleTable_operations_commute c role table conf1 conf2 :
  core.same_operation conf1 conf2 = false →
  (core.AddRoleTable (core.AddRoleTable c role table conf1).1 role table conf2).1
  = (core.AddRoleTable (core.AddRoleTable c role table conf2).1 role table conf1).1.
Proof.
  intros Hop.
  destruct (AddRoleTable_entry c role table)
    as (pre & r0 & post & tpre & t0 & tpost & Hpre & Hr0 & Htpre & Ht0 & _ & _ & Hrun).
  assert (∀ confa confb,
    (core.AddRoleTable (core.AddRoleTable c role table confa).1 role table confb).1
    = core.set_Roles c
        (pre ++ core.set_Tables r0
           (tpre ++ core.assign confb (core.assign confa t0) :: tpost) :: post)) as Htwo.
  { intros confa confb. rewrite (Hrun confa).
    rewrite (AddRoleTable_found
               (core.set_Roles c
                  (pre ++ core.set_Tables r0 (tpre ++ core.assign confa t0 :: tpost) :: post))
               role table confb pre
               (core.set_Tables r0 (tpre ++ core.assign confa t0 :: tpost)) post
               tpre (core.assign confa t0) tpost eq_refl);
      [by rewrite set_Roles_twice | done | done | done | done |].
    by rewrite table_named_assign. }
  by rewrite !Htwo, assign_other_operation.
Qed.

(** X4. A [conf] of an unsupported type is refused only after the role
    and the table have been looked up: the error is returned, yet a role
    that was missing has been appended with the table in it, while a
    configuration that had both is left as it was. *)
Theorem AddRoleTable_unsupported c role table :
  (core.AddRoleTable c role table core.ConfOther).2 = Some core.ErrUnsupportedType
  ∧ (Forall (λ r, core.role_named role r = false) (core.Roles c) →
     core.Roles (core.AddRoleTable c role table core.ConfOther).1
     = core.Roles c ++
       [core.set_Tables (core.new_Role role)
          [core.new_RoleTable (core.split_table table).2 (core.split_table table).1]])
  ∧ (∀ pre r0 post tpre t0 tpost,
       core.Roles c = pre ++ r0 :: post →
       Forall (λ y, core.role_named role y = false) pre →
       core.role_named role r0 = true →
       core.Role_Tables r0 = tpre ++ t0 :: tpost →
       Forall (λ y, core.table_named (core.split_table table).2
                      (core.split_table table).1 y = false) tpre →
       core.table_named (core.split_table table).2 (core.split_table table).1 t0 = true →
       (core.AddRoleTable c role table core.ConfOther).1 = c).
Proof.
  split_and!.
  - unfold core.AddRoleTable.
    destruct (core.role_ptr c role) as [c1 ri].
    destruct (core.split_table table) as [schema name].
    by destruct (core.table_ptr c1 ri name schema) as [c2 ti].
  - intros Hnone%index_where_None. rewrite AddRoleTable_unfold.
    unfold core.role_ptr. rewrite Hnone.
    destruct (core.split_table table) as [schema name]. simpl.
    by erewrite (table_block (core.set_Roles c _) (core.Roles c) (core.new_Role role) [])
      by reflexivity.
  - intros pre r0 post tpre t0 tpost Hc Hpre Hr0 Hts Htpre Ht0.
    rewrite (AddRoleTable_found _ _ _ _ _ _ _ _ _ _ Hc Hpre Hr0 Hts Htpre Ht0). simpl.
    by rewrite <- Hts, set_Tables_same, <- Hc, set_Roles_same.
Qed.

(** X5. [AddRoleTable] keeps the spelling of role names: when a role with
    that name up to case exists the list of role names is unchanged,
    otherwise the given name is appended to it as given. *)
Theorem AddRoleTable_role_names c role table conf :
  core.Role_Name <$> core.Roles (core.AddRoleTable c role table conf).1
  = match index_where (core.role_named role) (core.Roles c) with
    | Some _ => core.Role_Name <$> core.Roles c
    | None => (core.Role_Name <$> core.Roles c) ++ [role]
    end.
Proof.
  destruct (AddRoleTable_entry c role table)
    as (pre & r0 & post & tpre & t0 & tpost & Hpre & Hr0 & _ & _ & Hc & _ & Hrun).
  rewrite (Hrun conf). simpl. destruct Hc as [Hc | (Hc & -> & ->)].
  - rewrite Hc, (index_where_middle _ _ _ _ Hpre Hr0). by rewrite !fmap_app.
  - subst pre. apply index_where_None in Hpre as ->. by rewrite fmap_app.
Qed.

(** [RemoveRoleTable] on a configuration that has the role and the table. *)
Lemma RemoveRoleTable_found c role table pre r0 post tpre t0 tpost :
  core.Roles c = pre ++ r0 :: post →
  Forall (λ y, core.role_named role y = false) pre →
  core.role_named role r0 = true →
  core.Role_Tables r0 = tpre ++ t0 :: tpost →
  Forall (λ y, core.table_named (core.split_table table).2 (core.split_table table).1 y
               = false) tpre →
  core.table_named (core.split_table table).2 (core.split_table table).1 t0 = true →
  core.RemoveRoleTable c role table
  = (core.set_Roles c
       (if decide (tpre ++ tpost = []) then pre ++ post
        else pre ++ core.set_Tables r0 (tpre ++ tpost) :: post),
     None).
Proof.
  intros Hc Hpre Hr0 Hts Htpre Ht0. unfold core.RemoveRoleTable.
  assert (index_where (core.role_named role) (core.Roles c) = Some (length pre))
    as -> by (rewrite Hc; by apply index_where_middle).
  destruct (core.split_table table) as [schema name]. simpl in Htpre, Ht0.
  rewrite (tables_of_middle _ _ _ _ Hc), Hts.
  rewrite (index_where_middle _ _ _ _ Htpre Ht0), remove_at_middle.
  rewrite (update_role_middle _ _ _ _ _ Hc).
  erewrite tables_of_middle by reflexivity. simpl.
  destruct (tpre ++ tpost) as [|t' ts']; simpl; [by rewrite remove_at_middle | done].
Qed.

(** The two ways a call of [RemoveRoleTable] can end. *)
Lemma RemoveRoleTable_cases c role table :
  (∃ e, core.RemoveRoleTable c role table = (c, Some e))
  ∨ (∃ pre r0 post tpre t0 tpost,
       core.Roles c = pre ++ r0 :: post
       ∧ Forall (λ y, core.role_named role y = false) pre
       ∧ core.role_named role r0 = true
       ∧ core.Role_Tables r0 = tpre ++ t0 :: tpost
       ∧ Forall (λ y, core.table_named (core.split_table table).2
                        (core.split_table table).1 y = false) tpre
       ∧ core.table_named (core.split_table table).2 (core.split_table table).1 t0 = true
       ∧ core.RemoveRoleTable c role table
         = (core.set_Roles c
              (if decide (tpre ++ tpost = []) then pre ++ post
               else pre ++ core.set_Tables r0 (tpre ++ tpost) :: post),
            None)).
Proof.
  destruct (index_where (core.role_named role) (core.Roles c)) as [ri|] eqn:Hri.
  - pose proof Hri as (pre & r0 & post & Hc & <- & Hpre & Hr0)%index_where_Some.
    destruct (index_where
                (core.table_named (core.split_table table).2 (core.split_table table).1)
                (core.Role_Tables r0)) as [ti|] eqn:Hti.
    + apply index_where_Some in Hti as (tpre & t0 & tpost & Hts & <- & Htpre & Ht0).
      right. exists pre, r0, post, tpre, t0, tpost. split_and!; try done.
      exact (RemoveRoleTable_found _ _ _ _ _ _ _ _ _ Hc Hpre Hr0 Hts Htpre Ht0).
    + left. unfold core.RemoveRoleTable. rewrite Hri.
      destruct (core.split_table table) as [schema name]. simpl in *.
      rewrite (tables_of_middle _ _ _ _ Hc), Hti. by eexists.
  - left. unfold core.RemoveRoleTable. rewrite Hri. by eexists.
Qed.

(** X6. Adding a table and removing it again gives back the configuration
    it started from, both when the role was new, in which case the role
    goes again with its only table, and when the role existed with some
    tables of which none had that name. *)
Theorem AddRoleTable_RemoveRoleTable c role table conf :
  (Forall (λ r, core.role_named role r = false) (core.Roles c) →
   core.RemoveRoleTable (core.AddRoleTable c role table conf).1 role table = (c, None))
  ∧ (∀ pre r0 post,
       core.Roles c = pre ++ r0 :: post →
       Forall (λ y, core.role_named role y = false) pre →
       core.role_named role r0 = true →
       core.Role_Tables r0 ≠ [] →
       Forall (λ y, core.table_named (core.split_table table).2
                      (core.split_table table).1 y = false) (core.Role_Tables r0) →
       core.RemoveRoleTable (core.AddRoleTable c role table conf).1 role table
       = (c, None)).
Proof.
  assert (core.table_named (core.split_table table).2 (core.split_table table).1
            (core.assign conf
               (core.new_RoleTable (core.split_table table).2 (core.split_table table).1))
          = true) as Hnew.
  { rewrite table_named_assign. unfold core.table_named. simpl.
    by rewrite !EqualFold_refl. }
  split.
  - intros Hnone. pose proof Hnone as Hidx%index_where_None.
    assert ((core.AddRoleTable c role table conf).1
            = core.set_Roles c
                (core.Roles c ++
                 [core.set_Tables (core.new_Role role)
                    [core.assign conf
                       (core.new_RoleTable (core.split_table table).2
                          (core.split_table table).1)]])) as ->.
    { rewrite AddRoleTable_unfold. unfold core.role_ptr. rewrite Hidx.
      destruct (core.split_table table) as [schema name]. simpl.
      erewrite (table_block (core.set_Roles c _) (core.Roles c) (core.new_Role role) [])
        by reflexivity.
      by rewrite set_Roles_twice. }
    erewrite (RemoveRoleTable_found _ role table (core.Roles c) _ [] [] _ []);
      [| reflexivity | done | | reflexivity | done | done].
    + simpl. by rewrite app_nil_r, set_Roles_twice, set_Roles_same.
    + unfold core.role_named. simpl. apply EqualFold_refl.
  - intros pre r0 post Hc Hpre Hr0 Hsome Hfresh.
    pose proof Hfresh as Hidx%index_where_None.
    assert ((core.AddRoleTable c role table conf).1
            = core.set_Roles c
                (pre ++ core.set_Tables r0
                   (core.Role_Tables r0 ++
                    [core.assign conf
                       (core.new_RoleTable (core.split_table table).2
                          (core.split_table table).1)]) :: post)) as ->.
    { rewrite AddRoleTable_unfold. unfold core.role_ptr. rewrite Hc at 1.
      rewrite (index_where_middle _ _ _ _ Hpre Hr0).
      destruct (core.split_table table) as [schema name]. simpl in *.
      by rewrite (table_block _ _ _ _ _ _ _ Hc), Hidx, alter_at_end. }
    erewrite (RemoveRoleTable_found _ role table pre _ post (core.Role_Tables r0) _ []);
      [| reflexivity | done | done | reflexivity | done | done].
    rewrite app_nil_r, decide_False, set_Roles_twice by done. f_equal.
    transitivity (core.set_Roles c (core.Roles c)); [| apply set_Roles_same].
    rewrite Hc. do 3 f_equal. by destruct r0.
Qed.

Lemma pairwise_distinct_remove {A} (same : A → A → bool) (pre : list A) x post :
  pairwise_distinct same (pre ++ x :: post) = true →
  pairwise_distinct same (pre ++ post) = true.
Proof.
  rewrite !pairwise_distinct_app, pairwise_distinct_cons.
  intros (Hpre & (_ & Hpost) & Hcross). split_and!; [done | done |].
  eapply Forall_impl; [exact Hcross |]. intros y Hy. by inversion Hy.
Qed.

(** X7. [RemoveRoleTable] keeps role names and each role's tables unique
    up to case, whether it succeeds or not. *)
Theorem RemoveRoleTable_keeps_roles_unique c role table :
  core.roles_unique c = true →
  core.roles_unique (core.RemoveRoleTable c role table).1 = true.
Proof.
  intros Hu.
  destruct (RemoveRoleTable_cases c role table)
    as [[e ->] | (pre & r0 & post & tpre & t0 & tpost & Hc & _ & _ & Hts & _ & _ & ->)];
    [done |].
  apply roles_unique_iff in Hu as [Hd Ht]. apply roles_unique_iff. simpl.
  rewrite Hc in Hd, Ht. rewrite Forall_app, Forall_cons in Ht.
  destruct Ht as (Htpre & Ht0 & Htpost).
  destruct (decide (tpre ++ tpost = [])).
  - split; [by eapply pairwise_distinct_remove | by apply Forall_app].
  - split.
    + revert Hd. by apply pairwise_distinct_replace.
    + rewrite Forall_app, Forall_cons. split_and!; [done | | done]. simpl.
      rewrite Hts in Ht0. by eapply pairwise_distinct_remove.
Qed.

(** X8. On a configuration with unique roles and tables a table that has
    been removed is gone: removing it a second time fails and changes
    nothing. *)
Theorem RemoveRoleTable_once c role table c' :
  core.roles_unique c = true →
  core.RemoveRoleTable c role table = (c', None) →
  ∃ e, core.RemoveRoleTable c' role table = (c', Some e).
Proof.
  intros [Hd Ht]%roles_unique_iff Hrun.
  destruct (RemoveRoleTable_cases c role table)
    as [[e He] | (pre & r0 & post & tpre & t0 & tpost
                  & Hc & Hpre & Hr0 & Hts & Htpre & Ht0 & Hok)]; [congruence |].
  rewrite Hok in Hrun. injection Hrun as <-.
  rewrite Hc in Hd, Ht.
  destruct (pairwise_distinct_one_match core.same_role (core.role_named role)
              pre r0 post (role_named_same role) Hd Hr0) as [_ Hpost].
  rewrite Forall_app, Forall_cons, Hts in Ht. destruct Ht as (_ & Ht & _).
  destruct (pairwise_distinct_one_match core.same_table
              (core.table_named (core.split_table table).2 (core.split_table table).1)
              tpre t0 tpost (table_named_same _ _) Ht Ht0) as [_ Htpost].
  unfold core.RemoveRoleTable.
  destruct (decide (tpre ++ tpost = [])); simpl.
  - assert (index_where (core.role_named role) (pre ++ post) = None) as ->
      by (apply index_where_None; by apply Forall_app).
    by eexists.
  - rewrite (index_where_middle (core.role_named role) pre _ post Hpre) by done.
    destruct (core.split_table table) as [schema name]. simpl in *.
    erewrite tables_of_middle by reflexivity. simpl.
    assert (index_where (core.table_named name schema) (tpre ++ tpost) = None) as ->
      by (apply index_where_None; by apply Forall_app).
    by eexists.
Qed.

Lemma no_empty_role_iff c :
  core.no_empty_role c = true ↔ Forall (λ r, core.Role_Tables r ≠ []) (core.Roles c).
Proof.
  unfold core.no_empty_role. rewrite forallb_forall, Forall_forall.
  setoid_rewrite list_elem_of_In. setoid_rewrite negb_true_iff.
  by setoid_rewrite bool_decide_eq_false.
Qed.

(** X9. Neither [AddRoleTable] nor [RemoveRoleTable] leaves a role without
    tables behind: when every role has a table before the call, every role
    has one after it. *)
Theorem no_empty_role_kept c role table conf :
  core.no_empty_role c = true →
  core.no_empty_role (core.AddRoleTable c role table conf).1 = true
  ∧ core.no_empty_role (core.RemoveRoleTable c role table).1 = true.
Proof.
  intros Hne. pose proof Hne as Hall%no_empty_role_iff. split.
  - destruct (AddRoleTable_entry c role table)
      as (pre & r0 & post & tpre & t0 & tpost & _ & _ & _ & _ & Hc & _ & Hrun).
    rewrite (Hrun conf). apply no_empty_role_iff. simpl.
    assert (Forall (λ r, core.Role_Tables r ≠ []) pre
            ∧ Forall (λ r, core.Role_Tables r ≠ []) post) as [Hpre Hpost].
    { destruct Hc as [Hc | (Hc & _ & ->)].
      - rewrite Hc, Forall_app, Forall_cons in Hall. tauto.
      - subst pre. by split. }
    rewrite Forall_app, Forall_cons. split_and!; [done | | done].
    simpl. by destruct tpre.
  - destruct (RemoveRoleTable_cases c role table)
      as [[e ->] | (pre & r0 & post & tpre & t0 & tpost & Hc & _ & _ & _ & _ & _ & ->)];
      [done |].
    apply no_empty_role_iff. simpl.
    rewrite Hc, Forall_app, Forall_cons in Hall. destruct Hall as (Hpre & _ & Hpost).
    destruct (decide (tpre ++ tpost = [])).
    + by apply Forall_app.
    + rewrite Forall_app, Forall_cons. by split_and!.
Qed.

End CoreMore.

(** ** More on [SetResolver], table names, [GetConfigName] and
    [readInConfig] *)

Section RegistryMore.
Context {refunc : Type}.
Implicit Types (c : core.Config refunc) (fn : refunc).

(** X10. [SetResolver] only ever adds to the registry: a constructor that
    is registered stays registered under its name, whatever is registered
    afterwards and whether that call succeeds or not. *)
Theorem SetResolver_keeps_bindings c name fn k f :
  core.registry c !! k = Some f →
  core.registry (core.SetResolver c name fn).1 !! k = Some f.
Proof.
  unfold core.SetResolver, core.registry.
  destruct c as [? ? ? ? ? ? ? ? ? ? ? ? ? ? [m|]]; simpl; [| by rewrite lookup_empty].
  intros Hk. destruct (m !! name) eqn:Hname; simpl; [done |].
  rewrite lookup_insert_ne; [done | congruence].
Qed.

(** X11. Constructors for two different names can be registered in either
    order: the configuration afterwards is the same. *)
Theorem SetResolver_commute c name1 fn1 name2 fn2 :
  name1 ≠ name2 →
  (core.SetResolver (core.SetResolver c name1 fn1).1 name2 fn2).1
  = (core.SetResolver (core.SetResolver c name2 fn2).1 name1 fn1).1.
Proof.
  intros Hne. unfold core.SetResolver, core.registry.
  destruct c as [? ? ? ? ? ? ? ? ? ? ? ? ? ? [m|]]; simpl.
  - destruct (m !! name1) eqn:H1, (m !! name2) eqn:H2; simpl;
      rewrite ?H1, ?H2, ?lookup_insert_ne, ?H1, ?H2 by done; simpl; try done.
    unfold core.set_rtmap. simpl. by rewrite insert_insert_ne.
  - rewrite !lookup_empty. simpl. rewrite !lookup_insert_ne, !lookup_empty by done.
    unfold core.set_rtmap. simpl. by rewrite insert_insert_ne.
Qed.

End RegistryMore.

Section NamesMore.

Lemma Cut_app a b sep :
  strings.Cut a sep = None → strings.Cut (a +:+ String sep b) sep = Some (a, b).
Proof.
  induction a as [|x a IH]; simpl.
  - by rewrite Ascii.eqb_refl.
  - destruct (Ascii.eqb x sep); [done |].
    destruct (strings.Cut a sep) as [[]|]; [done |]. intros _. by rewrite IH.
Qed.

Lemma Cut_Some s sep a b :
  strings.Cut s sep = Some (a, b) → s = a +:+ String sep b ∧ strings.Cut a sep = None.
Proof.
  revert a. induction s as [|x s IH]; intros a; simpl; [done |].
  destruct (Ascii.eqb x sep) eqn:Hx.
  - intros [= <- <-]. apply Ascii.eqb_eq in Hx as ->. by split.
  - destruct (strings.Cut s sep) as [[a' b']|]; [| done].
    intros [= <- <-]. destruct (IH a' eq_refl) as [-> Ha']. split; [done |].
    simpl. by rewrite Hx, Ha'.
Qed.

(** X12. A table name is cut at its first dot only: [schema.name] with no
    dot in [schema] gives back exactly that schema and name, further dots
    staying in the name; a name without a dot has the empty schema; and
    every name is either the one or the other. *)
Theorem split_table_round_trip :
  (∀ schema name,
     strings.Cut schema "." = None →
     core.split_table (schema +:+ "." +:+ name) = (schema, name))
  ∧ (∀ table, strings.Cut table "." = None → core.split_table table = ("", table))
  ∧ (∀ table schema name,
       core.split_table table = (schema, name) →
       table = schema +:+ "." +:+ name ∧ strings.Cut schema "." = None
       ∨ table = name ∧ schema = "" ∧ strings.Cut table "." = None).
Proof.
  unfold core.split_table, strings.SplitN2. split_and!.
  - intros schema name Hschema. change ("." +:+ name) with (String "." name).
    by rewrite (Cut_app schema name "." Hschema).
  - by intros table ->.
  - intros table schema name.
    destruct (strings.Cut table ".") as [[a b]|] eqn:Hcut.
    + intros [= <- <-]. left. by apply Cut_Some.
    + intros [= <- <-]. by right.
Qed.


End NamesMore.

Section ReadMore.
Context {refunc : Type}.
Context (Dir Base Ext : string → string) (Join : string → string → string).
Context (osFs : viper.Fs) (Environ : list string).
Context (SetKeyValue : viper.Viper → string → string → viper.Viper).
Context (Unmarshal : viper.Viper → core.Config refunc → option (core.Config refunc)).

Local Abbreviation newViper := (core.newViper Ext Join osFs).
Local Abbreviation readInConfig :=
  (core.readInConfig refunc Dir Base Ext Join osFs).

(** X14. A config file that cannot be read, and a parent named under
    [inherits] that cannot be read, both end [readInConfig] with the
    reader's error and no configuration: a missing parent is not skipped. *)
Theorem readInConfig_read_errors configFile fs :
  (∀ e,
     viper.ReadInConfig (core.with_fs fs (newViper (Dir configFile) (Base configFile)))
       = inl e →
     readInConfig Environ SetKeyValue Unmarshal configFile fs
       = core.Error (core.ErrViper e))
  ∧ (∀ vi e,
       viper.ReadInConfig (core.with_fs fs (newViper (Dir configFile) (Base configFile)))
         = inr vi →
       viper.GetString vi "inherits" ≠ "" →
       viper.ReadInConfig
         (core.with_fs fs (newViper (Dir configFile) (viper.GetString vi "inherits")))
         = inl e →
       readInConfig Environ SetKeyValue Unmarshal configFile fs
         = core.Error (core.ErrViper e)).
Proof.
  unfold core.readInConfig. split.
  - by intros e ->.
  - intros vi e -> Hpcf Hparent.
    rewrite (bool_decide_eq_true_2 _ Hpcf). unfold core.inherit. by rewrite Hparent.
Qed.

Lemma environ_loop_filter env vi :
  core.environ_loop SetKeyValue (List.filter core.prefixed env) vi
  = core.environ_loop SetKeyValue env vi.
Proof.
  revert vi. induction env as [|e env IH]; intros vi; simpl; [done |].
  unfold core.prefixed at 1.
  destruct (strings.HasPrefix e "GJ_" || strings.HasPrefix e "SJ_") eqn:He; simpl.
  - unfold core.prefixed in He. rewrite He.
    destruct (strings.SplitN2 e "=") as [|? [|? [|? ?]]]; first [done | apply IH].
  - apply IH.
Qed.

(** X15. Only the entries of the environment that start with [GJ_] or
    [SJ_] matter to [readInConfig]: dropping all other entries gives the
    same result. *)
Theorem readInConfig_environment configFile fs :
  readInConfig (List.filter core.prefixed Environ) SetKeyValue Unmarshal configFile fs
  = readInConfig Environ SetKeyValue Unmarshal configFile fs.
Proof.
  assert (∀ vi, core.decode refunc Dir (List.filter core.prefixed Environ) SetKeyValue Unmarshal vi
                = core.decode refunc Dir Environ SetKeyValue Unmarshal vi) as Hdecode.
  { intros vi. unfold core.decode. by rewrite environ_loop_filter. }
  unfold core.readInConfig.
  destruct (viper.ReadInConfig _) as [e|vi]; [done |].
  case_bool_decide; [| apply Hdecode].
  destruct (core.inherit _ _ _ _ _ _ _) as [e|vi']; [reflexivity | apply Hdecode].
Qed.

End ReadMore.

(** ** More on [validateConf] and [initConfig] *)

Local Arguments sha256.Sum256 : simpl never.
Local Opaque sha256.Sum256.

Lemma append_colon_not_empty (h p : string) : h +:+ ":" +:+ p ≠ "".
Proof. by destruct h. Qed.

(** Unfolding a run of [initConfig]. *)
Ltac initConfig_unfold :=
  unfold serv.initConfig, mbind, serv.M_bind, serv.bind, serv.write_core,
    serv.write_conf, serv.get_conf, serv.when, serv.lift, serv.fail, serv.ret,
    mret, serv.M_ret;
  simpl.

Section ServMore.
Context {refunc : Type} (defaultHP : string).
Implicit Types (s : serv.service refunc).

Lemma check_auths_inr auths am am' :
  serv.check_auths auths am = inr am' ↔
  NoDup (serv.Auth_Name <$> auths)
  ∧ (∀ n, n ∈ serv.Auth_Name <$> auths → n ∉ am)
  ∧ am' = list_to_set (serv.Auth_Name <$> auths) ∪ am.
Proof.
  split.
  - revert am. induction auths as [|a auths IH]; intros am; simpl.
    + intros [= <-]. split_and!; [constructor | by intros n ?%elem_of_nil | set_solver].
    + destruct (decide (serv.Auth_Name a ∈ am)) as [Hin|Hout]; [done |].
      intros (Hnd & Ham & ->)%IH. rewrite ?fmap_cons, NoDup_cons. split_and!.
      * intros Hdup. specialize (Ham _ Hdup). set_solver.
      * done.
      * intros n [->|Hn]%elem_of_cons; [done |]. specialize (Ham _ Hn). set_solver.
      * set_solver.
  - intros (Hnd & Ham & ->). by apply check_auths_NoDup.
Qed.

Lemma check_actions_inr actions am axm :
  serv.check_actions actions am axm = inr tt ↔
  NoDup (serv.Action_Name <$> actions)
  ∧ (∀ n, n ∈ serv.Action_Name <$> actions → n ∉ axm)
  ∧ Forall (λ a, serv.Action_AuthName a ∈ am) actions.
Proof.
  revert axm. induction actions as [|a actions IH]; intros axm; simpl.
  - split; [intros _ | done]. split_and!; [constructor | by intros n ?%elem_of_nil | done].
  - destruct (decide (serv.Action_Name a ∈ axm)) as [Hin|Hout].
    { split; [done |]. intros (_ & Hax & _). destruct (Hax (serv.Action_Name a)); [left | done]. }
    destruct (decide (serv.Action_AuthName a ∈ am)) as [Hauth|Hauth].
    2:{ split; [done |]. intros (_ & _ & Hall). by inversion Hall. }
    rewrite IH, ?fmap_cons, NoDup_cons, Forall_cons. split.
    + intros (Hnd & Hax & Hall). split_and!; try done.
      * intros Hdup. specialize (Hax _ Hdup). set_solver.
      * intros n [->|Hn]%elem_of_cons; [done |]. specialize (Hax _ Hn). set_solver.
    + intros ((Hfresh & Hnd) & Hax & _ & Hall). split_and!; try done.
      intros n Hn [->%elem_of_singleton|Hin]%elem_of_union; [done |].
      apply (Hax n); [by right | done].
Qed.

(** A run of [initConfig], statement by statement: the service after the
    first two assignments, after the hash has been stored, and at the end. *)
Lemma initConfig_run s :
  serv.initConfig defaultHP s
  = let marked :=
      if bool_decide (core.DBType (serv.Core (serv.conf s)) = "")
      then serv.set_conf s
             (serv.set_Core (serv.set_dirty (serv.conf s) true)
                (core.set_DBType (serv.Core (serv.conf s))
                   (serv.DB_Type (serv.DB (serv.conf s)))))
      else serv.set_conf s (serv.set_dirty (serv.conf s) true) in
    match serv.check_auths (serv.Auths (serv.conf s)) ∅ with
    | inl e => (serv.Failed e, marked)
    | inr am =>
        if serv.HotDeploy (serv.conf s)
           && negb (bool_decide (serv.AdminSecretKey (serv.conf s) ≠ ""))
        then (serv.Failed serv.ErrAdminSecretKey, marked)
        else
          match serv.check_actions (serv.Actions (serv.conf s)) am ∅ with
          | inl e =>
              (serv.Failed e,
               if serv.HotDeploy (serv.conf s)
               then serv.set_asec marked
                      (sha256.Sum256 (serv.AdminSecretKey (serv.conf s)))
               else marked)
          | inr _ => (serv.Done tt, serv.started defaultHP s)
          end
    end.
Proof.
  unfold serv.started. initConfig_unfold. unfold strings.SplitN2.
  destruct (bool_decide (core.DBType _ = "")); simpl;
    (destruct (serv.check_auths _ _) as [e|am]; simpl; [done |]);
    (destruct (serv.HotDeploy _); simpl;
     [destruct (bool_decide (serv.AdminSecretKey _ ≠ "")); simpl; [| done] |]);
    (destruct (serv.check_actions _ _ _) as [e|[]]; simpl; [done |]);
    (destruct (_ || _); simpl);
    (destruct (strings.Cut _ _) as [[h p]|]; simpl;
     [by rewrite (bool_decide_eq_false_2 _ (append_colon_not_empty _ _))
     |by destruct (bool_decide (serv.hostPort _ = ""))]).
Qed.

(** How a run of [initConfig] ends is decided by the two loops and the
    admin secret key alone. *)
Lemma initConfig_outcome s :
  (serv.initConfig defaultHP s).1
  = match serv.check_auths (serv.Auths (serv.conf s)) ∅ with
    | inl e => serv.Failed e
    | inr am =>
        if serv.HotDeploy (serv.conf s)
           && negb (bool_decide (serv.AdminSecretKey (serv.conf s) ≠ ""))
        then serv.Failed serv.ErrAdminSecretKey
        else match serv.check_actions (serv.Actions (serv.conf s)) am ∅ with
             | inl e => serv.Failed e
             | inr _ => serv.Done tt
             end
    end.
Proof.
  rewrite initConfig_run. simpl.
  destruct (serv.check_auths _ _); [done |].
  destruct (_ && _); [done |]. by destruct (serv.check_actions _ _ _).
Qed.

(** X16. [initConfig] returns no error exactly when the names of the
    auths are pairwise different, hot deployment, if enabled, comes with an
    admin secret key, the names of the actions are pairwise different, and
    every action names an auth that exists. *)
Theorem initConfig_succeeds_iff s :
  (serv.initConfig defaultHP s).1 = serv.Done tt ↔
  NoDup (serv.Auth_Name <$> serv.Auths (serv.conf s))
  ∧ (serv.HotDeploy (serv.conf s) = true → serv.AdminSecretKey (serv.conf s) ≠ "")
  ∧ NoDup (serv.Action_Name <$> serv.Actions (serv.conf s))
  ∧ Forall (λ a, serv.Action_AuthName a ∈ serv.Auth_Name <$> serv.Auths (serv.conf s))
      (serv.Actions (serv.conf s)).
Proof.
  rewrite initConfig_outcome.
  destruct (serv.check_auths _ _) as [e|am] eqn:Hauths.
  - split; [done |]. intros (Hnd & _).
    rewrite check_auths_NoDup in Hauths by (done || set_solver). done.
  - apply check_auths_inr in Hauths as (Hnd & _ & ->).
    destruct (serv.HotDeploy (serv.conf s)); simpl.
    + case_bool_decide as Hkey; simpl.
      * destruct (serv.check_actions _ _ _) as [e|[]] eqn:Hactions.
        -- split; [done |]. intros (_ & _ & Hand & Hall).
           assert (serv.check_actions (serv.Actions (serv.conf s))
                     (list_to_set (serv.Auth_Name <$> serv.Auths (serv.conf s)) ∪ ∅) ∅
                   = inr tt) as Hok; [| congruence].
           apply check_actions_inr. split_and!; [done | set_solver |].
           eapply Forall_impl; [exact Hall |]. set_solver.
        -- apply check_actions_inr in Hactions as (Hand & _ & Hall).
           split; [intros _ | done]. split_and!; try done.
           eapply Forall_impl; [exact Hall |]. set_solver.
      * split; [done |]. intros (_ & Hk & _). by destruct Hk.
    + destruct (serv.check_actions _ _ _) as [e|[]] eqn:Hactions.
      * split; [done |]. intros (_ & _ & Hand & Hall).
        assert (serv.check_actions (serv.Actions (serv.conf s))
                  (list_to_set (serv.Auth_Name <$> serv.Auths (serv.conf s)) ∪ ∅) ∅
                = inr tt) as Hok; [| congruence].
        apply check_actions_inr. split_and!; [done | set_solver |].
        eapply Forall_impl; [exact Hall |]. set_solver.
      * apply check_actions_inr in Hactions as (Hand & _ & Hall).
        split; [intros _ | done]. split_and!; try done.
        eapply Forall_impl; [exact Hall |]. set_solver.
Qed.

(** A run without error ends in the service [serv.started] describes. *)
Lemma initConfig_Done_state s :
  (serv.initConfig defaultHP s).1 = serv.Done tt →
  (serv.initConfig defaultHP s).2 = serv.started defaultHP s.
Proof.
  rewrite initConfig_run. simpl.
  destruct (serv.check_auths _ _); [done |].
  destruct (_ && _); [done |]. by destruct (serv.check_actions _ _ _).
Qed.

Lemma conf_collapse (c : serv.Config refunc) k a k' a' :
  serv.set_dirty (serv.set_hostPort (serv.set_Core
    (serv.set_dirty (serv.set_hostPort (serv.set_Core c k) a) true) k') a') true
  = serv.set_dirty (serv.set_hostPort (serv.set_Core c k') a') true.
Proof. reflexivity. Qed.

Lemma core_collapse (k : core.Config refunc) d b p d' b' p' :
  core.set_Production (core.set_DefaultBlock (core.set_DBType
    (core.set_Production (core.set_DefaultBlock (core.set_DBType k d) b) p) d') b') p'
  = core.set_Production (core.set_DefaultBlock (core.set_DBType k d') b') p'.
Proof. reflexivity. Qed.

Lemma started_twice s :
  serv.started defaultHP (serv.started defaultHP s) = serv.started defaultHP s.
Proof.
  unfold serv.started. simpl.
  rewrite conf_collapse, core_collapse.
  f_equal; repeat f_equal.
  - repeat case_bool_decide; congruence.
  - by destruct (_ || _).
  - destruct (strings.Cut _ _) as [[h p]|]; [done |].
    repeat case_bool_decide; congruence.
  - by destruct (serv.HotDeploy _).
Qed.

(** X17. After a successful [initConfig] the address to listen on is put
    together from [HostPort] only when that contains a colon: then [Host]
    and [Port], where set, replace its two parts, and neither the address
    set before nor the default is used. A [HostPort] without a colon is
    ignored together with [Host] and [Port]: the address set before stays,
    or the default when there was none. *)
Theorem initConfig_hostPort s :
  (serv.initConfig defaultHP s).1 = serv.Done tt →
  serv.hostPort (serv.conf (serv.initConfig defaultHP s).2)
  = match strings.Cut (serv.HostPort (serv.conf s)) ":" with
    | Some (h, p) =>
        (if bool_decide (serv.Host (serv.conf s) ≠ "") then serv.Host (serv.conf s) else h)
        +:+ ":" +:+
        (if bool_decide (serv.Port (serv.conf s) ≠ "") then serv.Port (serv.conf s) else p)
    | None =>
        if bool_decide (serv.hostPort (serv.conf s) = "") then defaultHP
        else serv.hostPort (serv.conf s)
    end.
Proof.
  intros Hok. by rewrite (initConfig_Done_state s Hok).
Qed.

(** X18. Of the configuration [initConfig] writes only [dirty],
    [hostPort] and the core's [DBType], [DefaultBlock] and [Production],
    and it logs nothing, however it ends: with these five fields put back
    the configuration is the one it started from. *)
Theorem initConfig_frame s :
  serv.log (serv.initConfig defaultHP s).2 = serv.log s
  ∧ serv.set_dirty
      (serv.set_hostPort
         (serv.set_Core (serv.conf (serv.initConfig defaultHP s).2)
            (core.set_Production
               (core.set_DefaultBlock
                  (core.set_DBType
                     (serv.Core (serv.conf (serv.initConfig defaultHP s).2))
                     (core.DBType (serv.Core (serv.conf s))))
                  (core.DefaultBlock (serv.Core (serv.conf s))))
               (core.Production (serv.Core (serv.conf s)))))
         (serv.hostPort (serv.conf s)))
      (serv.dirty (serv.conf s))
    = serv.conf s.
Proof.
  rewrite initConfig_run. cbv zeta.
  destruct s as [[k ? ? ? ? ? ? ? ? ? ? ? ? ? ?] ? ?]. destruct k.
  destruct (serv.check_auths _ _); simpl; [by case_bool_decide |].
  destruct (_ && _); simpl; [by case_bool_decide |].
  destruct (serv.check_actions _ _ _); simpl; [| done].
  case_bool_decide; by case_match.
Qed.

(** X19. A successful [initConfig] can be run again: the second run
    succeeds as well and leaves the service exactly as the first one did. *)
Theorem initConfig_idempotent s :
  (serv.initConfig defaultHP s).1 = serv.Done tt →
  serv.initConfig defaultHP (serv.initConfig defaultHP s).2
  = (serv.Done tt, (serv.initConfig defaultHP s).2).
Proof.
  intros Hok. rewrite (initConfig_Done_state s Hok).
  assert ((serv.initConfig defaultHP (serv.started defaultHP s)).1 = serv.Done tt)
    as Hagain.
  { rewrite initConfig_outcome. rewrite initConfig_outcome in Hok. exact Hok. }
  rewrite (surjective_pairing (serv.initConfig defaultHP (serv.started defaultHP s))).
  by rewrite Hagain, (initConfig_Done_state _ Hagain), started_twice.
Qed.

(** X20. When [initConfig] returns an error the configuration has already
    been marked dirty and has got its database type, and that is all: no
    other field is written, nothing is logged, and [asec] is as before or,
    when the error came from the actions, holds the hash of the key. *)
Theorem initConfig_failure s e :
  (serv.initConfig defaultHP s).1 = serv.Failed e →
  serv.conf (serv.initConfig defaultHP s).2
  = serv.set_dirty
      (serv.set_Core (serv.conf s)
         (core.set_DBType (serv.Core (serv.conf s))
            (if bool_decide (core.DBType (serv.Core (serv.conf s)) = "")
             then serv.DB_Type (serv.DB (serv.conf s))
             else core.DBType (serv.Core (serv.conf s))))) true
  ∧ serv.log (serv.initConfig defaultHP s).2 = serv.log s
  ∧ (serv.asec (serv.initConfig defaultHP s).2 = serv.asec s
     ∨ serv.asec (serv.initConfig defaultHP s).2
       = sha256.Sum256 (serv.AdminSecretKey (serv.conf s))).
Proof.
  rewrite initConfig_run. cbv zeta.
  destruct s as [[k ? ? ? ? ? ? ? ? ? ? ? ? ? ?] ? ?]. destruct k.
  destruct (serv.check_auths _ _); simpl;
    [intros _; case_bool_decide; split_and!; auto |].
  destruct (_ && _); simpl; [intros _; case_bool_decide; split_and!; auto |].
  destruct (serv.check_actions _ _ _); simpl; [| done].
  intros _. case_bool_decide; case_match; split_and!; auto.
Qed.

(** What a successful run leaves in the core's [DefaultBlock] and
    [Production]. *)
Lemma initConfig_Done_core s :
  (serv.initConfig defaultHP s).1 = serv.Done tt →
  core.DefaultBlock (serv.Core (serv.conf (serv.initConfig defaultHP s).2))
  = (if bool_decide (serv.Auth_Type (serv.Auth (serv.conf s)) = "")
        || bool_decide (serv.Auth_Type (serv.Auth (serv.conf s)) = "none")
     then false else core.DefaultBlock (serv.Core (serv.conf s)))
  ∧ core.Production (serv.Core (serv.conf (serv.initConfig defaultHP s).2))
    = serv.Serv_Production (serv.Serv (serv.conf s)).
Proof. intros Hok. by rewrite (initConfig_Done_state s Hok). Qed.

(** X21. Whatever the outcome of [initConfig], the configuration is marked
    dirty afterwards and the core's database type is the one it had, or,
    when it had none, the type of the database section. *)
Theorem initConfig_dirty_DBType s :
  serv.dirty (serv.conf (serv.initConfig defaultHP s).2) = true
  ∧ core.DBType (serv.Core (serv.conf (serv.initConfig defaultHP s).2))
    = (if bool_decide (core.DBType (serv.Core (serv.conf s)) = "")
       then serv.DB_Type (serv.DB (serv.conf s))
       else core.DBType (serv.Core (serv.conf s))).
Proof.
  rewrite initConfig_run. cbv zeta.
  destruct (serv.check_auths _ _); simpl; [by case_bool_decide |].
  destruct (_ && _); simpl; [by case_bool_decide |].
  destruct (serv.check_actions _ _ _); simpl; [| done].
  case_bool_decide; by case_match.
Qed.

(** X22. After a successful [initConfig] the core runs in production mode
    exactly when the service does, and with an authentication type other
    than the empty one and ["none"] the core's [DefaultBlock] is what the
    configuration said. *)
Theorem initConfig_Production s :
  (serv.initConfig defaultHP s).1 = serv.Done tt →
  core.Production (serv.Core (serv.conf (serv.initConfig defaultHP s).2))
  = serv.Serv_Production (serv.Serv (serv.conf s))
  ∧ (serv.Auth_Type (serv.Auth (serv.conf s)) ≠ "" →
     serv.Auth_Type (serv.Auth (serv.conf s)) ≠ "none" →
     core.DefaultBlock (serv.Core (serv.conf (serv.initConfig defaultHP s).2))
     = core.DefaultBlock (serv.Core (serv.conf s))).
Proof.
  intros [Hblock Hprod]%initConfig_Done_core. split; [done |].
  intros Hempty Hnone. by rewrite Hblock, !bool_decide_eq_false_2.
Qed.

Lemma anon_found (roles : list core.Role) :
  existsb (λ r, bool_decide (core.Role_Name r = "anon")) roles = true ↔
  "anon" ∈ core.Role_Name <$> roles.
Proof.
  induction roles as [|r roles IH]; simpl.
  - split; [done | by intros ?%elem_of_nil].
  - rewrite orb_true_iff, IH, elem_of_cons, bool_decide_eq_true. naive_solver.
Qed.

(** X23. [validateConf] leaves the service as it is when a role is named
    [anon], spelled exactly so, or when [Core.DefaultBlock] is off; and it
    never changes the core configuration or turns [AuthFailBlock] on. *)
Theorem validateConf_unchanged s :
  ("anon" ∈ core.Role_Name <$> core.Roles (serv.Core (serv.conf s))
   ∨ core.DefaultBlock (serv.Core (serv.conf s)) = false →
   serv.validateConf s = s)
  ∧ serv.Core (serv.conf (serv.validateConf s)) = serv.Core (serv.conf s)
  ∧ (serv.AuthFailBlock (serv.conf (serv.validateConf s)) = true →
     serv.AuthFailBlock (serv.conf s) = true).
Proof.
  unfold serv.validateConf. split_and!.
  - intros [Hanon%anon_found | Hoff]; [by rewrite Hanon | rewrite Hoff].
    by rewrite andb_false_r.
  - by destruct (_ && _).
  - by destruct (_ && _).
Qed.

(** X24. With no authentication configured a successful [initConfig] has
    switched [Core.DefaultBlock] off, so [validateConf] run after it finds
    nothing to do and logs no warning, [anon] role or not. *)
Theorem validateConf_after_initConfig s :
  serv.Auth_Type (serv.Auth (serv.conf s)) = ""
  ∨ serv.Auth_Type (serv.Auth (serv.conf s)) = "none" →
  (serv.initConfig defaultHP s).1 = serv.Done tt →
  serv.validateConf (serv.initConfig defaultHP s).2 = (serv.initConfig defaultHP s).2.
Proof.
  intros Htype [Hblock _]%initConfig_Done_core.
  unfold serv.validateConf. rewrite Hblock.
  destruct Htype as [-> | ->]; simpl; by rewrite andb_false_r.
Qed.

Lemma check_auths_error auths am e :
  serv.check_auths auths am = inl e → ∃ n, e = serv.ErrDuplicateAuth n.
Proof.
  revert am. induction auths as [|a auths IH]; intros am; simpl; [done |].
  case_decide; [intros [= <-]; by eexists | apply IH].
Qed.

Lemma check_actions_error actions am axm e :
  serv.check_actions actions am axm = inl e → e ≠ serv.ErrAdminSecretKey.
Proof.
  revert axm. induction actions as [|a actions IH]; intros axm; simpl; [done |].
  repeat case_decide; [by intros [= <-] | apply IH | by intros [= <-]].
Qed.

(** X25. [initConfig] asks for the admin secret key exactly when hot
    deployment is enabled, the key is empty and the names of the auths are
    pairwise different: a duplicate auth is reported before a missing key,
    and a missing key before anything about the actions. *)
Theorem initConfig_admin_key_error s :
  (serv.initConfig defaultHP s).1 = serv.Failed serv.ErrAdminSecretKey ↔
  NoDup (serv.Auth_Name <$> serv.Auths (serv.conf s))
  ∧ serv.HotDeploy (serv.conf s) = true
  ∧ serv.AdminSecretKey (serv.conf s) = "".
Proof.
  rewrite initConfig_outcome.
  destruct (serv.check_auths _ _) as [e|am] eqn:Hauths.
  - split.
    + intros [= ->]. by apply check_auths_error in Hauths as [n Hn].
    + intros (Hnd & _). rewrite check_auths_NoDup in Hauths by (done || set_solver). done.
  - apply check_auths_inr in Hauths as (Hnd & _ & ->).
    destruct (serv.HotDeploy (serv.conf s)); simpl.
    + case_bool_decide as Hkey; simpl.
      * split; [| by intros (_ & _ & ?)].
        destruct (serv.check_actions _ _ _) as [e|[]] eqn:Hactions; [| done].
        intros [= ->]. by apply check_actions_error in Hactions.
      * split; [intros _ | done]. split_and!; [done | done |].
        by destruct (decide (serv.AdminSecretKey (serv.conf s) = "")).
    + split; [| by intros (_ & ? & _)].
      destruct (serv.check_actions _ _ _) as [e|[]] eqn:Hactions; [| done].
      intros [= ->]. by apply check_actions_error in Hactions.
Qed.

End ServMore.

Section SpellingMore.
Context {refunc : Type} `{!Folding}.

(** X26. Role names are compared up to case by [AddRoleTable] but exactly
    by [validateConf]: when the configuration has a role whose name is
    [anon] only up to case, giving the role [anon] a table updates that
    role and keeps its spelling, so with [Core.DefaultBlock] set
    [validateConf] still finds no [anon] role and switches [AuthFailBlock]
    off. *)
Theorem validateConf_anon_spelling (s : serv.service refunc) table conf :
  "anon" ∉ core.Role_Name <$> core.Roles (serv.Core (serv.conf s)) →
  is_Some (index_where (core.role_named "anon") (core.Roles (serv.Core (serv.conf s)))) →
  core.DefaultBlock (serv.Core (serv.conf s)) = true →
  serv.AuthFailBlock
    (serv.conf
       (serv.validateConf
          (serv.set_conf s
             (serv.set_Core (serv.conf s)
                (core.AddRoleTable (serv.Core (serv.conf s)) "anon" table conf).1))))
  = false.
Proof.
  intros Hexact [ri Hri] Hblock. unfold serv.validateConf. simpl.
  destruct (AddRoleTable_entry (serv.Core (serv.conf s)) "anon" table)
    as (pre & r0 & post & tpre & t0 & tpost & Hpre & Hr0 & _ & _ & Hc & _ & Hrun).
  rewrite (Hrun conf). simpl. rewrite Hblock, andb_true_r.
  destruct Hc as [Hc | (Hc & _ & _)].
  2:{ subst pre. apply index_where_None in Hpre. congruence. }
  assert (existsb (λ r, bool_decide (core.Role_Name r = "anon"))
            (pre ++ core.set_Tables r0 (tpre ++ core.assign conf t0 :: tpost) :: post)
          = false) as ->; [| done].
  apply not_true_iff_false. rewrite anon_found. intros Hin. apply Hexact.
  rewrite Hc. by rewrite !fmap_app in *.
Qed.

End SpellingMore.

(** ** Worked instances of the further properties *)

Section MoreWitnesses.
Local Existing Instance ascii_folding.

Lemma AddRoleTable_again_witness :
  (core.AddRoleTable
     (core.AddRoleTable samples.config "user" "public.Posts"
        (core.ConfQuery samples.by_owner)).1
     "USER" "Public.posts" (core.ConfQuery samples.by_owner)).1
  = (core.AddRoleTable samples.config "user" "public.Posts"
       (core.ConfQuery samples.by_owner)).1.
Proof.
  apply (AddRoleTable_again samples.config "user" "USER" "public.Posts" "Public.posts");
    reflexivity.
Defined.

Lemma AddRoleTable_last_wins_witness :
  (core.AddRoleTable
     (core.AddRoleTable samples.config "user" "posts" (core.ConfInsert samples.own_posts)).1
     "user" "posts"
     (core.ConfInsert
        {| core.Insert_Filters := []; core.Insert_Columns := ["title"];
           core.Insert_Presets := ∅; core.Insert_Block := true |})).1
  = (core.AddRoleTable samples.config "user" "posts"
       (core.ConfInsert
          {| core.Insert_Filters := []; core.Insert_Columns := ["title"];
             core.Insert_Presets := ∅; core.Insert_Block := true |})).1.
Proof. apply AddRoleTable_last_wins. reflexivity. Defined.

Lemma AddRoleTable_operations_commute_witness :
  (core.AddRoleTable
     (core.AddRoleTable samples.config "editor" "posts" (core.ConfQuery samples.by_owner)).1
     "editor" "posts" (core.ConfInsert samples.own_posts)).1
  = (core.AddRoleTable
       (core.AddRoleTable samples.config "editor" "posts"
          (core.ConfInsert samples.own_posts)).1
       "editor" "posts" (core.ConfQuery samples.by_owner)).1.
Proof. apply AddRoleTable_operations_commute. reflexivity. Defined.

Example AddRoleTable_unsupported_appends :
  core.AddRoleTable samples.config "editor" "posts" core.ConfOther
  = (core.set_Roles samples.config
       [samples.user; samples.guest;
        core.set_Tables (core.new_Role "editor") [core.new_RoleTable "posts" ""]],
     Some core.ErrUnsupportedType).
Proof. reflexivity. Qed.

Lemma AddRoleTable_RemoveRoleTable_witness :
  core.RemoveRoleTable
    (core.AddRoleTable samples.config "editor" "cms.pages" (core.ConfQuery samples.by_owner)).1
    "editor" "cms.pages"
  = (samples.config, None)
  ∧ core.RemoveRoleTable
      (core.AddRoleTable samples.config "guest" "cms.pages"
         (core.ConfQuery samples.by_owner)).1
      "guest" "cms.pages"
    = (samples.config, None).
Proof.
  split.
  - apply (proj1 (AddRoleTable_RemoveRoleTable samples.config "editor" "cms.pages"
                    (core.ConfQuery samples.by_owner))).
    by repeat constructor.
  - apply (proj2 (AddRoleTable_RemoveRoleTable samples.config "guest" "cms.pages"
                    (core.ConfQuery samples.by_owner)) [samples.user] samples.guest []);
      [reflexivity | by repeat constructor | reflexivity | discriminate
      | by repeat constructor].
Defined.

(** A role that has no tables does not come back: the round trip removes
    it together with the table added. *)
Example AddRoleTable_RemoveRoleTable_empty_role :
  core.RemoveRoleTable
    (core.AddRoleTable (core.set_Roles samples.config [core.new_Role "editor"])
       "editor" "posts" (core.ConfQuery samples.by_owner)).1
    "editor" "posts"
  = (core.set_Roles samples.config [], None).
Proof. reflexivity. Qed.

Lemma RemoveRoleTable_keeps_roles_unique_witness :
  core.roles_unique samples.config = true
  ∧ core.roles_unique (core.RemoveRoleTable samples.config "USER" "Posts").1 = true.
Proof.
  split; [reflexivity |].
  apply (RemoveRoleTable_keeps_roles_unique samples.config "USER" "Posts"). reflexivity.
Defined.

Lemma RemoveRoleTable_once_witness :
  ∃ e,
    core.RemoveRoleTable (core.set_Roles samples.config [samples.user])
      "Guest" "public.comments"
    = (core.set_Roles samples.config [samples.user], Some e).
Proof.
  apply (RemoveRoleTable_once samples.config "Guest" "public.comments");
    reflexivity.
Defined.

Lemma no_empty_role_kept_witness :
  core.no_empty_role samples.config = true
  ∧ core.no_empty_role
      (core.AddRoleTable samples.config "guest" "public.comments" core.ConfOther).1 = true
  ∧ core.no_empty_role (core.RemoveRoleTable samples.config "guest" "public.comments").1
    = true.
Proof.
  split; [reflexivity |].
  apply (no_empty_role_kept samples.config "guest" "public.comments" core.ConfOther).
  reflexivity.
Defined.

Lemma SetResolver_keeps_bindings_witness :
  core.registry
    (core.SetResolver (core.SetResolver samples.config "redis" 1).1 "remote_api" 2).1
    !! "redis"
  = Some 1.
Proof.
  apply (SetResolver_keeps_bindings (core.SetResolver samples.config "redis" 1).1
           "remote_api" 2 "redis" 1).
  reflexivity.
Defined.

Lemma SetResolver_commute_witness :
  (core.SetResolver (core.SetResolver samples.config "redis" 1).1 "remote_api" 2).1
  = (core.SetResolver (core.SetResolver samples.config "remote_api" 2).1 "redis" 1).1.
Proof. apply SetResolver_commute. discriminate. Defined.

Example split_table_dots :
  core.split_table "public.posts.v2" = ("public", "posts.v2")
  ∧ core.split_table ".posts" = ("", "posts")
  ∧ core.split_table "posts" = ("", "posts").
Proof. by split_and!. Qed.

Example readInConfig_missing_parent :
  core.readInConfig nat sample_files.Dir sample_files.Base sample_files.Ext
    sample_files.Join
    {| viper.load path :=
         if bool_decide (path = "config/dev.yml")
         then Some {[ "inherits" := "base.yml" ]} else None;
       viper.search _ _ := "" |}
    sample_files.Environ sample_files.SetKeyValue sample_files.Unmarshal
    "config/dev.yml" None
  = core.Error (core.ErrViper (viper.ConfigReadError "config/base.yml")).
Proof. vm_compute. reflexivity. Qed.

Lemma initConfig_hostPort_witness :
  serv.hostPort
    (serv.conf (serv.initConfig samples.defaultHP (samples.service [samples.jwt] "k")).2)
  = "0.0.0.0:9090".
Proof.
  apply (initConfig_hostPort samples.defaultHP (samples.service [samples.jwt] "k")).
  reflexivity.
Defined.

Lemma initConfig_idempotent_witness :
  serv.initConfig samples.defaultHP
    (serv.initConfig samples.defaultHP (samples.service [samples.jwt] "k")).2
  = (serv.Done tt,
     (serv.initConfig samples.defaultHP (samples.service [samples.jwt] "k")).2).
Proof.
  apply (initConfig_idempotent samples.defaultHP (samples.service [samples.jwt] "k")).
  reflexivity.
Defined.

Lemma initConfig_failure_witness :
  (serv.initConfig samples.defaultHP (samples.service [samples.jwt; samples.jwt] "k")).1
  = serv.Failed (serv.ErrDuplicateAuth "jwt")
  ∧ serv.dirty
      (serv.conf
         (serv.initConfig samples.defaultHP
            (samples.service [samples.jwt; samples.jwt] "k")).2) = true
  ∧ core.DBType
      (serv.Core
         (serv.conf
            (serv.initConfig samples.defaultHP
               (samples.service [samples.jwt; samples.jwt] "k")).2)) = "postgres".
Proof.
  split; [reflexivity |].
  destruct (initConfig_failure samples.defaultHP
              (samples.service [samples.jwt; samples.jwt] "k")
              (serv.ErrDuplicateAuth "jwt") eq_refl) as (Hconf & _ & _).
  rewrite Hconf. split; reflexivity.
Defined.

Lemma initConfig_Production_witness :
  core.Production (serv.Core (serv.conf (samples.service [samples.jwt] "k"))) = true
  ∧ core.Production
      (serv.Core
         (serv.conf
            (serv.initConfig samples.defaultHP (samples.service [samples.jwt] "k")).2))
    = serv.Serv_Production (serv.Serv (serv.conf (samples.service [samples.jwt] "k"))).
Proof.
  split; [reflexivity |].
  apply (initConfig_Production samples.defaultHP (samples.service [samples.jwt] "k")).
  reflexivity.
Defined.

Lemma validateConf_after_initConfig_witness :
  serv.validateConf
    (serv.initConfig samples.defaultHP (samples.service [samples.jwt] "k")).2
  = (serv.initConfig samples.defaultHP (samples.service [samples.jwt] "k")).2.
Proof.
  apply (validateConf_after_initConfig samples.defaultHP
           (samples.service [samples.jwt] "k"));
    [right |]; reflexivity.
Defined.

Lemma validateConf_anon_spelling_witness :
  serv.AuthFailBlock
    (serv.conf
       (serv.validateConf
          (serv.set_conf (samples.service [] "")
             (serv.set_Core (serv.conf (samples.service [] ""))
                (core.AddRoleTable
                   (core.set_Roles samples.config [core.new_Role "Anon"])
                   "anon" "posts" (core.ConfQuery samples.by_owner)).1))))
  = false.
Proof.
  apply (validateConf_anon_spelling
           (serv.set_conf (samples.service [] "")
              (serv.set_Core (serv.conf (samples.service [] ""))
                 (core.set_Roles samples.config [core.new_Role "Anon"])))
           "posts" (core.ConfQuery samples.by_owner)).
  - simpl. by intros [?|?%elem_of_nil]%elem_of_cons.
  - by eexists.
  - reflexivity.
Defined.

End MoreWitnesses.
